(** * The translating search proxy: cache, translation fallback and forwarding

    A shallow embedding of the server: [cacheGet], [cacheSet] and the handler
    registered with [app.get('/search', ...)], the list of allowed origins
    and the [origin] callback, the handler of [/translate-pt], and the handler
    of [/search] as it was before the cache.

    - JavaScript values are an inductive type [JSValue]; numbers are restricted
      to integers, which is all the handlers ever inspect (truthiness).
    - A Rocq string stands for a JavaScript string (well-formed text by its
      UTF-8 bytes; the empty string and ASCII literals by themselves).  What
      the platform does with strings and values is a parameter of the model,
      the class [Platform]: [String.prototype.trim] and [toLowerCase],
      indexing, conversion of a value to a string, and the validation of a
      header value by [res.set].  Every theorem holds for every platform; the
      closed examples run on [ascii_platform], on ASCII text.
    - The [Map] held in [translationCache] is an association list in insertion
      order without repeated keys.
    - [req.query] and [forwardParams] are finite maps from names to values.
    - [Date.now()], the [axios] calls, the translation client and
      [process.env] are inputs of the model ([World], [Config]); the calls a
      handler makes are recorded in the order they are made ([Call]).
    - A log line is modelled where building it can end the request: the
      template literals of the cache-hit branch of [/search] and of
      [/translate-pt].  [res.status] and [res.json] are taken not to raise. *)

From Stdlib Require Import ZArith Ascii String.
From stdpp Require Import base decidable option list gmap strings.

Local Open Scope Z_scope.

(** ** JavaScript values *)

#[local] Set Warnings "-register-all".

Inductive JSValue : Type :=
| JUndefined
| JNull
| JBool (b : bool)
| JNum (n : Z)
| JStr (s : string)
| JArr (items : list JSValue)
| JObj (fields : list (string * JSValue)).

(** [!!v]: the values that are not [undefined], [null], [false], [0] or the
    empty string. *)
Definition truthy (v : JSValue) : bool :=
  match v with
  | JUndefined | JNull => false
  | JBool b => b
  | JNum n => negb (n =? 0)
  | JStr s => negb (String.eqb s "")
  | JArr _ | JObj _ => true
  end.

(** [a || b] on values. *)
Definition js_or (a b : JSValue) : JSValue := if truthy a then a else b.

(** Own property of an object literal; the first binding of a name wins. *)
Fixpoint field (name : string) (fields : list (string * JSValue)) : JSValue :=
  match fields with
  | [] => JUndefined
  | (k, v) :: rest => if decide (k = name) then v else field name rest
  end.

(** [v.name] for a name that no built-in prototype defines ([data],
    [translations], [translatedText]).  [None] is the [TypeError] raised when
    [v] is [undefined] or [null]. *)
Definition get_member (v : JSValue) (name : string) : option JSValue :=
  match v with
  | JUndefined | JNull => None
  | JObj fields => Some (field name fields)
  | JBool _ | JNum _ | JStr _ | JArr _ => Some JUndefined
  end.

(** ** The platform *)

(** What the JavaScript platform (the language's built-ins, Express and Node)
    does with strings and values.  The laws are the facts about it that the
    theorems use. *)
Class Platform : Type := {
  (** [s.trim()] *)
  trim : string -> string;
  (** [s.toLowerCase()] *)
  toLowerCase : string -> string;
  (** [s[0]] for a string [s] that is not empty *)
  first_unit : string -> string;
  (** the first value of iterating a string [s] that is not empty *)
  first_point : string -> string;
  (** building a template literal around [v] does not raise *)
  stringifies : JSValue -> bool;
  (** [res.set(name, v)], for one of the four diagnostic names, does not raise *)
  header_ok : JSValue -> bool;
  trim_empty_string : trim "" = "";
  stringifies_string : forall s, stringifies (JStr s) = true;
  header_ok_0 : header_ok (JStr "0") = true;
  header_ok_1 : header_ok (JStr "1") = true
}.

(** ** The [Map] behind [translationCache] *)

Record CacheEntry : Type := { translated : JSValue; expiresAt : Z }.

(** Entries in insertion order. *)
Definition Cache : Type := list (string * CacheEntry).

Definition keys (m : Cache) : list string := m.*1.

(** [m.size] *)
Definition map_size (m : Cache) : Z := Z.of_nat (length m).

(** [m.get(key)] *)
Fixpoint map_get (key : string) (m : Cache) : option CacheEntry :=
  match m with
  | [] => None
  | (k, e) :: rest => if decide (k = key) then Some e else map_get key rest
  end.

(** [m.delete(key)] *)
Fixpoint map_delete (key : string) (m : Cache) : Cache :=
  match m with
  | [] => []
  | (k, e) :: rest =>
      if decide (k = key) then map_delete key rest else (k, e) :: map_delete key rest
  end.

(** [m.set(key, e)]: a resident key keeps its place, a new key goes last. *)
Fixpoint map_set (key : string) (e : CacheEntry) (m : Cache) : Cache :=
  match m with
  | [] => [(key, e)]
  | (k, e0) :: rest =>
      if decide (k = key) then (k, e) :: rest else (k, e0) :: map_set key e rest
  end.

(** [m.keys().next().value]; [None] is [undefined], for the empty map. *)
Definition map_first_key (m : Cache) : option string :=
  match m with
  | [] => None
  | (k, _) :: _ => Some k
  end.

(** ** Configuration read from [process.env] *)

Record Config : Type := {
  CACHE_TTL_MS : Z;                          (* parseInt(...) || 3600000: never 0 *)
  MAX_CACHE_ENTRIES : Z;                     (* parseInt(...) || 500: never 0 *)
  GOOGLE_TRANSLATE_API_KEY : option string;  (* None: the variable is unset *)
  TARGET_SEARCH_URL : option string
}.

(** ** The world outside the handler *)

(** How a promise returned by [axios] settles: rejected (time-out, network
    error, status outside 2xx) or resolved with a status and a parsed body. *)
Inductive AxiosResult : Type :=
| Rejected
| Resolved (status : Z) (data : JSValue).

(** The calls that leave the process. *)
Inductive Call : Type :=
| TranslateCall (q target key : string)
| SearchCall (url : string) (params : gmap string JSValue).

Record World : Type := {
  now_get : Z;      (* Date.now() read by cacheGet *)
  now_set : Z;      (* Date.now() read by cacheSet *)
  translate_post : string -> string -> string -> AxiosResult;
  search_get : string -> gmap string JSValue -> AxiosResult
}.

(** [!translateApiKey] fails: the variable is set and not empty. *)
Definition api_key (cfg : Config) : option string :=
  match GOOGLE_TRANSLATE_API_KEY cfg with
  | Some k => if String.eqb k "" then None else Some k
  | None => None
  end.

(** What the handler derives for a request with keywords: its three
    variables, and whether the log line of the cache-hit branch raised, which
    takes the request to the outer [catch]. *)
Record Outcome : Type := {
  portugueseKeywords : JSValue;
  attempted : bool;
  cacheHit : bool;
  raised : bool
}.

(** What [res] carries when the handler returns; [res_headers] lists the
    [res.set] calls that were made, in order. *)
Record Response : Type := {
  res_status : Z;
  res_headers : list (string * JSValue);
  res_body : JSValue
}.

Definition internalApiUrl (cfg : Config) : string :=
  match TARGET_SEARCH_URL cfg with
  | Some u => if String.eqb u "" then "https://tueducaciondigital.site/ads/getads/" else u
  | None => "https://tueducaciondigital.site/ads/getads/"
  end.

Definition error_body : JSValue :=
  JObj [("error", JStr "An internal server error occurred.")].

(** The reply of the outer [catch] when no header was set before. *)
Definition internal_error : Response :=
  {| res_status := 500; res_headers := []; res_body := error_body |}.

Definition flag (b : bool) : JSValue := JStr (if b then "1" else "0").

(** [rawKeywords] once [typeof rawKeywords === 'string'] is known. *)
Definition string_of (rawKeywords : option JSValue) : string :=
  match rawKeywords with
  | Some (JStr s) => s
  | _ => ""
  end.

Definition is_translate_call (x : Call) : bool :=
  match x with TranslateCall _ _ _ => true | SearchCall _ _ => false end.

Definition forwarded (calls : list Call) : list (gmap string JSValue) :=
  omap (fun x => match x with SearchCall _ p => Some p | _ => None end) calls.

Definition header_names (r : Response) : list string := (res_headers r).*1.

Definition diagnostic_headers : list string :=
  ["X-Translate-Attempted"; "X-Translate-Cached"; "X-Source-Keywords";
   "X-Translated-Keywords"].

Definition resolved (r : AxiosResult) : bool :=
  match r with
  | Resolved _ _ => true
  | Rejected => false
  end.

(** [process.env.NAME || dflt] *)
Definition env_or (raw : option string) (dflt : string) : string :=
  match raw with
  | Some v => if String.eqb v "" then dflt else v
  | None => dflt
  end.

(** No comma in [s]. *)
Fixpoint comma_free (s : string) : bool :=
  match s with
  | EmptyString => true
  | String a rest => negb (Ascii.eqb a ",") && comma_free rest
  end.

(** [s.split(',')] *)
Fixpoint split_comma (s : string) : list string :=
  match s with
  | EmptyString => [EmptyString]
  | String a rest =>
      if Ascii.eqb a "," then EmptyString :: split_comma rest
      else
        match split_comma rest with
        | piece :: pieces => String a piece :: pieces
        | [] => [String a EmptyString]
        end
  end.

(** The [origin] callback given to [cors]: [true] for [cb(null, true)], [false]
    for [cb(new Error(...))].  [origin] is [None] when the request has no
    [Origin] header. *)
Definition origin_allowed (allowed : list string) (origin : option string) : bool :=
  match origin with
  | None => true
  | Some o =>
      String.eqb o "" || bool_decide ("*" ∈ allowed) || bool_decide (o ∈ allowed)
  end.

(** How the promise of [translate.translate] settles. *)
Inductive ClientResult : Type :=
| ClientRejected
| ClientResolved (value : JSValue).

(** [Array.isArray(translations) ? translations[0] : translations] *)
Definition first_if_array (translations : JSValue) : JSValue :=
  match translations with
  | JArr [] => JUndefined
  | JArr (x :: _) => x
  | _ => translations
  end.

Definition text_required : Response :=
  {| res_status := 400;
     res_headers := [];
     res_body := JObj [("error", JStr "Text parameter is required.")] |}.

(** Sequences of cache operations. *)
Inductive CacheOp : Type :=
| OpGet (now : Z) (original : string)
| OpSet (now : Z) (original : string) (translated : JSValue).

Definition is_set (op : CacheOp) : bool :=
  match op with OpSet _ _ _ => true | OpGet _ _ => false end.

(** ** The model over a platform *)

Section model.
Context `{Platform}.

(** [v[0]]. *)
Definition get_first (v : JSValue) : option JSValue :=
  match v with
  | JUndefined | JNull => None
  | JArr [] => Some JUndefined
  | JArr (x :: _) => Some x
  | JStr s => if String.eqb s "" then Some JUndefined else Some (JStr (first_unit s))
  | JObj fields => Some (field "0" fields)
  | JBool _ | JNum _ => Some JUndefined
  end.

(** [translateResponse.data.data.translations[0].translatedText], where
    [body] is [translateResponse.data].  [None]: a [TypeError] was raised on
    the way. *)
Definition translatedText_of (body : JSValue) : option JSValue :=
  d ← get_member body "data";
  ts ← get_member d "translations";
  t ← get_first ts;
  get_member t "translatedText".

(** The [try] block around the translation raises: the awaited call is
    rejected, or reading the translated text off the reply raises. *)
Definition translation_throws (r : AxiosResult) : bool :=
  match r with
  | Rejected => true
  | Resolved _ body =>
      match translatedText_of body with
      | None => true
      | Some _ => false
      end
  end.

(** *** [cacheGet] and [cacheSet]

    [now] is the reading of [Date.now()] inside the call.  [cacheGet] returns
    the value handed back together with the cache it leaves behind. *)

Definition cacheGet (now : Z) (original : string) (c : Cache) : JSValue * Cache :=
  let key := toLowerCase original in
  match map_get key c with
  | None => (JNull, c)
  | Some entry =>
      if bool_decide (now > expiresAt entry)
      then (JNull, map_delete key c)
      else (translated entry, c)
  end.

Definition cacheSet (cfg : Config) (now : Z) (original : string)
    (translated : JSValue) (c : Cache) : Cache :=
  let key := toLowerCase original in
  let c1 :=
    if bool_decide (map_size c >= MAX_CACHE_ENTRIES cfg) then
      match map_first_key c with
      | Some firstKey => map_delete firstKey c
      | None => c
      end
    else c in
  map_set key {| translated := translated; expiresAt := now + CACHE_TTL_MS cfg |} c1.

Definition apply_op (cfg : Config) (c : Cache) (op : CacheOp) : Cache :=
  match op with
  | OpGet now original => (cacheGet now original c).2
  | OpSet now original translated => cacheSet cfg now original translated c
  end.

(** The cache after the operations [ops], oldest first, on an empty map. *)
Definition run (cfg : Config) (ops : list CacheOp) : Cache :=
  foldl (apply_op cfg) [] ops.

Definition op_key (op : CacheOp) : string :=
  match op with
  | OpGet _ original | OpSet _ original _ => toLowerCase original
  end.

(** *** The handler of [GET /search] *)

(** From the read of [GOOGLE_TRANSLATE_API_KEY] to the end of the
    [if (!cached)] statement: cache lookup, translation and fallback, and the
    log line of the cache-hit branch, whose template literal converts the
    cached value to a string. *)
Definition resolve (cfg : Config) (w : World) (spanishKeywords : string)
    (c : Cache) : Outcome * Cache * list Call :=
  let '(cached, c1) := cacheGet (now_get w) spanishKeywords c in
  let fallback := js_or cached (JStr spanishKeywords) in
  let hit := truthy cached in
  if negb (truthy cached) then
    match api_key cfg with
    | None =>
        ({| portugueseKeywords := fallback; attempted := false; cacheHit := hit;
            raised := false |},
         c1, [])
    | Some key =>
        let failed :=
          ({| portugueseKeywords := fallback; attempted := true; cacheHit := hit;
              raised := false |},
           c1, [TranslateCall spanishKeywords "pt" key]) in
        match translate_post w spanishKeywords "pt" key with
        | Rejected => failed
        | Resolved _ body =>
            match translatedText_of body with
            | None => failed
            | Some text =>
                ({| portugueseKeywords := text; attempted := true; cacheHit := hit;
                    raised := false |},
                 cacheSet cfg (now_set w) spanishKeywords text c1,
                 [TranslateCall spanishKeywords "pt" key])
            end
        end
    end
  else
    ({| portugueseKeywords := fallback; attempted := false; cacheHit := hit;
        raised := negb (stringifies fallback) |},
     c1, []).

(** [typeof rawKeywords === 'string' && rawKeywords.trim().length > 0] *)
Definition hasKeywords (rawKeywords : option JSValue) : bool :=
  match rawKeywords with
  | Some (JStr s) => (0 <? String.length (trim s))%nat
  | _ => false
  end.

(** The chained [res.set] calls: the headers set before the first value that
    is refused, and whether none was refused. *)
Fixpoint set_headers (headers : list (string * JSValue))
    : list (string * JSValue) * bool :=
  match headers with
  | [] => ([], true)
  | (name, value) :: rest =>
      if header_ok value then
        let '(set, ok) := set_headers rest in ((name, value) :: set, ok)
      else ([], false)
  end.

(** The end of both paths.  When [axios.get] resolves the handler sets
    [headers] and relays the status and the body of the backend; a [res.set]
    that raises, and an [axios.get] that rejects, end in the outer [catch],
    which replies 500 on the same [res]. *)
Definition relay (r : AxiosResult) (headers : list (string * JSValue)) : Response :=
  match r with
  | Resolved status data =>
      let '(set, ok) := set_headers headers in
      if ok then {| res_status := status; res_headers := set; res_body := data |}
      else {| res_status := 500; res_headers := set; res_body := error_body |}
  | Rejected => internal_error
  end.

Definition search (cfg : Config) (w : World) (query : gmap string JSValue)
    (c : Cache) : Response * Cache * list Call :=
  let rawKeywords := query !! "keywords" in
  if negb (hasKeywords rawKeywords) then
    let forwardParams := delete "keywords" query in
    (relay (search_get w (internalApiUrl cfg) forwardParams) [],
     c,
     [SearchCall (internalApiUrl cfg) forwardParams])
  else
    let spanishKeywords := trim (string_of rawKeywords) in
    let '(o, c', calls) := resolve cfg w spanishKeywords c in
    if raised o then (internal_error, c', calls)
    else
      let forwardParams := <["keywords" := portugueseKeywords o]> query in
      (relay (search_get w (internalApiUrl cfg) forwardParams)
         [("X-Translate-Attempted", flag (attempted o));
          ("X-Translate-Cached", flag (cacheHit o));
          ("X-Source-Keywords", JStr spanishKeywords);
          ("X-Translated-Keywords", portugueseKeywords o)],
       c',
       calls ++ [SearchCall (internalApiUrl cfg) forwardParams]).

(** The cache after serving the requests [reqs], oldest first, starting with
    an empty map; each request comes with the world it runs in. *)
Definition serve (cfg : Config) (reqs : list (World * gmap string JSValue)) : Cache :=
  foldl (fun c req => (search cfg req.1 req.2 c).1.2) [] reqs.

(** *** Allowed origins *)

(** [(process.env.CORS_ALLOW_ORIGINS || '*').split(',').map(o => o.trim()).filter(Boolean)],
    [raw] being the value of the variable. *)
Definition ALLOWED_ORIGINS (raw : option string) : list string :=
  filter (fun o => o <> "") (trim <$> split_comma (env_or raw "*")).

(** *** [GET /translate-pt] *)

(** [let [translations] = value]; [None]: [value] is not iterable. *)
Definition first_of (value : JSValue) : option JSValue :=
  match value with
  | JArr [] => Some JUndefined
  | JArr (x :: _) => Some x
  | JStr s => if String.eqb s "" then Some JUndefined else Some (JStr (first_point s))
  | JUndefined | JNull | JBool _ | JNum _ | JObj _ => None
  end.

(** The handler; [client text target] is what [translate.translate] settles
    to.  The second component lists the calls made to the client.  The log
    line before the reply converts the text and the translation to strings,
    inside the [try]. *)
Definition translate_pt (client : JSValue -> string -> ClientResult)
    (query : gmap string JSValue) : Response * list (JSValue * string) :=
  match query !! "text" with
  | None => (text_required, [])
  | Some textToTranslate =>
      if negb (truthy textToTranslate) then (text_required, [])
      else
        (match client textToTranslate "pt" with
         | ClientRejected => internal_error
         | ClientResolved value =>
             match first_of value with
             | None => internal_error
             | Some translations =>
                 let translatedText := first_if_array translations in
                 if stringifies textToTranslate && stringifies translatedText then
                   {| res_status := 200;
                      res_headers := [];
                      res_body :=
                        JObj [("originalText", textToTranslate);
                              ("translatedText", translatedText)] |}
                 else internal_error
             end
         end,
         [(textToTranslate, "pt")])
  end.

(** *** The handler of [GET /search] before the cache was added *)

Definition search_old (cfg : Config) (w : World) (query : gmap string JSValue)
    : Response * list Call :=
  let rawKeywords := query !! "keywords" in
  if negb (hasKeywords rawKeywords) then
    let forwardParams := delete "keywords" query in
    (relay (search_get w (internalApiUrl cfg) forwardParams) [],
     [SearchCall (internalApiUrl cfg) forwardParams])
  else
    let spanishKeywords := trim (string_of rawKeywords) in
    match api_key cfg with
    | None =>
        (relay (search_get w (internalApiUrl cfg) query) [],
         [SearchCall (internalApiUrl cfg) query])
    | Some key =>
        let portugueseKeywords :=
          match translate_post w spanishKeywords "pt" key with
          | Rejected => JStr spanishKeywords
          | Resolved _ body =>
              match translatedText_of body with
              | None => JStr spanishKeywords
              | Some text => text
              end
          end in
        let forwardParams := <["keywords" := portugueseKeywords]> query in
        (relay (search_get w (internalApiUrl cfg) forwardParams) [],
         [TranslateCall spanishKeywords "pt" key;
          SearchCall (internalApiUrl cfg) forwardParams])
    end.

End model.

(** ** The platform on ASCII text

    On a text whose code units are all below 128 these functions return what
    the platform returns; the closed examples below use such texts only. *)

Definition ascii_white_space (a : ascii) : bool :=
  match a with
  | "009" | "010" | "011" | "012" | "013" | " " => true
  | _ => false
  end%char.

Fixpoint ascii_trimStart (s : string) : string :=
  match s with
  | EmptyString => EmptyString
  | String a rest => if ascii_white_space a then ascii_trimStart rest else s
  end.

Fixpoint ascii_rev_append (s acc : string) : string :=
  match s with
  | EmptyString => acc
  | String a rest => ascii_rev_append rest (String a acc)
  end.

Definition ascii_reverse (s : string) : string := ascii_rev_append s EmptyString.

Definition ascii_trimEnd (s : string) : string := ascii_reverse (ascii_trimStart (ascii_reverse s)).

Definition ascii_trim (s : string) : string := ascii_trimEnd (ascii_trimStart s).

Definition ascii_lower (a : ascii) : ascii :=
  let n := N_of_ascii a in
  if ((65 <=? n) && (n <=? 90))%N then ascii_of_N (n + 32) else a.

Fixpoint ascii_toLowerCase (s : string) : string :=
  match s with
  | EmptyString => EmptyString
  | String a rest => String (ascii_lower a) (ascii_toLowerCase rest)
  end.

Definition ascii_first (s : string) : string :=
  match s with
  | EmptyString => EmptyString
  | String a _ => String a EmptyString
  end.

(** Conversion to a string raises for an object with an own [toString] that
    is not a function, as every parsed one is, and for an array that holds
    one. *)
Fixpoint ascii_stringifies (v : JSValue) : bool :=
  match v with
  | JArr items =>
      (fix all (l : list JSValue) : bool :=
         match l with
         | [] => true
         | x :: l' => ascii_stringifies x && all l'
         end) items
  | JObj fields => negb (bool_decide ("toString" ∈ fields.*1))
  | _ => true
  end.

(** Horizontal tab and the printable characters. *)
Fixpoint ascii_header_text (s : string) : bool :=
  match s with
  | EmptyString => true
  | String a rest =>
      let n := N_of_ascii a in
      ((n =? 9) || ((32 <=? n) && (n <=? 126)))%N && ascii_header_text rest
  end.

(** [res.set] converts the value with [String] (an array element by
    element) and refuses the text when it holds another character. *)
Fixpoint ascii_header_ok (v : JSValue) : bool :=
  match v with
  | JStr s => ascii_header_text s
  | JArr items =>
      (fix all (l : list JSValue) : bool :=
         match l with
         | [] => true
         | x :: l' => ascii_header_ok x && all l'
         end) items
  | JObj fields => negb (bool_decide ("toString" ∈ fields.*1))
  | _ => true
  end.

Definition ascii_platform : Platform :=
  {| trim := ascii_trim;
     toLowerCase := ascii_toLowerCase;
     first_unit := ascii_first;
     first_point := ascii_first;
     stringifies := ascii_stringifies;
     header_ok := ascii_header_ok;
     trim_empty_string := eq_refl;
     stringifies_string := fun _ => eq_refl;
     header_ok_0 := eq_refl;
     header_ok_1 := eq_refl |}.

(** ** Sample configurations and worlds *)

Definition config (ttl max : Z) (key : option string) : Config :=
  {| CACHE_TTL_MS := ttl; MAX_CACHE_ENTRIES := max;
     GOOGLE_TRANSLATE_API_KEY := key; TARGET_SEARCH_URL := None |}.

(** A provider reply in the documented shape,
    [{ data: { translations: [ { translatedText } ] } }]. *)
Definition translation_body (text : JSValue) : JSValue :=
  JObj [("data", JObj [("translations", JArr [JObj [("translatedText", text)]])])].

Definition world (t_get t_set : Z) (provider backend : AxiosResult) : World :=
  {| now_get := t_get; now_set := t_set;
     translate_post := fun _ _ _ => provider;
     search_get := fun _ _ => backend |}.

(** * Facts about the model *)

(** ** The insertion-ordered map *)

Section map_facts.
Implicit Types (m : Cache) (k : string) (e : CacheEntry).

Lemma map_get_None m k : map_get k m = None <-> k ∉ keys m.
Proof.
  unfold keys. induction m as [|[k0 e0] m IH]; simpl.
  - split; [intros _; apply not_elem_of_nil | done].
  - rewrite not_elem_of_cons. case_decide; subst.
    + split; [done | intros [? _]; done].
    + rewrite IH. split; [intros ?; split; [by intros -> | done] | by intros [_ ?]].
Qed.

Lemma map_get_Some_elem m k e : map_get k m = Some e -> k ∈ keys m.
Proof.
  intros H. destruct (decide (k ∈ keys m)) as [|Hn]; [done|].
  apply map_get_None in Hn. congruence.
Qed.

Lemma map_get_set_eq m k e : map_get k (map_set k e m) = Some e.
Proof.
  induction m as [|[k0 e0] m IH]; simpl.
  - by rewrite decide_True.
  - case_decide; subst; simpl.
    + by rewrite decide_True.
    + by rewrite decide_False.
Qed.

Lemma map_get_set_ne m k k' e : k <> k' -> map_get k' (map_set k e m) = map_get k' m.
Proof.
  intros Hne. induction m as [|[k0 e0] m IH]; simpl.
  - by rewrite decide_False.
  - case_decide; subst; simpl.
    + by rewrite !decide_False.
    + by rewrite IH.
Qed.

Lemma map_get_delete_eq m k : map_get k (map_delete k m) = None.
Proof.
  induction m as [|[k0 e0] m IH]; simpl; [done|].
  case_decide; simpl; [done|]. by rewrite decide_False.
Qed.

Lemma map_get_delete_ne m k k' : k <> k' -> map_get k' (map_delete k m) = map_get k' m.
Proof.
  intros Hne. induction m as [|[k0 e0] m IH]; simpl; [done|].
  case_decide; subst; simpl.
  - by rewrite decide_False.
  - by rewrite IH.
Qed.

Lemma map_delete_absent m k : k ∉ keys m -> map_delete k m = m.
Proof.
  unfold keys. induction m as [|[k0 e0] m IH]; simpl; [done|].
  rewrite not_elem_of_cons. intros [Hne Hn].
  rewrite decide_False by done. by rewrite IH.
Qed.

Lemma map_set_absent m k e : k ∉ keys m -> map_set k e m = m ++ [(k, e)].
Proof.
  unfold keys. induction m as [|[k0 e0] m IH]; simpl; [done|].
  rewrite not_elem_of_cons. intros [Hne Hn].
  rewrite decide_False by done. by rewrite IH.
Qed.

Lemma keys_map_set_resident m k e : k ∈ keys m -> keys (map_set k e m) = keys m.
Proof.
  unfold keys. induction m as [|[k0 e0] m IH]; simpl.
  - by intros ?%elem_of_nil.
  - intros Hin. case_decide; subst; simpl; [done|].
    f_equal. apply IH. apply elem_of_cons in Hin as [|]; [congruence | done].
Qed.

Lemma keys_map_delete m k : keys (map_delete k m) = filter (λ x, x <> k) (keys m).
Proof.
  unfold keys. induction m as [|[k0 e0] m IH]; simpl; [done|].
  case_decide; subst.
  - rewrite filter_cons_False by (intros ?; done). done.
  - rewrite filter_cons_True by done. simpl. f_equal. exact IH.
Qed.

Lemma length_map_delete m k : (length (map_delete k m) <= length m)%nat.
Proof.
  induction m as [|[k0 e0] m IH]; simpl; [done|].
  case_decide; simpl; lia.
Qed.

Lemma length_map_set m k e : (length (map_set k e m) <= S (length m))%nat.
Proof.
  induction m as [|[k0 e0] m IH]; simpl; [done|].
  case_decide; simpl; lia.
Qed.

Lemma length_map_set_resident m k e :
  k ∈ keys m -> length (map_set k e m) = length m.
Proof.
  intros Hin. apply (keys_map_set_resident _ _ e) in Hin.
  apply (f_equal length) in Hin. unfold keys in Hin.
  by rewrite !length_fmap in Hin.
Qed.

Lemma NoDup_map_delete m k : NoDup (keys m) -> NoDup (keys (map_delete k m)).
Proof. rewrite keys_map_delete. apply NoDup_filter. Qed.

Lemma NoDup_map_set m k e : NoDup (keys m) -> NoDup (keys (map_set k e m)).
Proof.
  intros Hnd. destruct (decide (k ∈ keys m)) as [Hin|Hn].
  - by rewrite keys_map_set_resident.
  - rewrite map_set_absent by done. unfold keys in *.
    rewrite fmap_app. simpl. apply NoDup_app. split; [done|].
    split; [|apply NoDup_singleton].
    intros x Hx ->%list_elem_of_singleton. done.
Qed.
End map_facts.

(** ** [cacheGet] and [cacheSet] on the map *)

Section cache_facts.
Context `{Platform} (cfg : Config).
Implicit Types (c : Cache) (now : Z) (original : string) (v : JSValue).

Lemma cacheGet_absent now original c :
  map_get (toLowerCase original) c = None -> cacheGet now original c = (JNull, c).
Proof. unfold cacheGet. by intros ->. Qed.

Lemma cacheGet_live now original c e :
  map_get (toLowerCase original) c = Some e -> now <= expiresAt e ->
  cacheGet now original c = (translated e, c).
Proof.
  unfold cacheGet. intros -> Hlive. rewrite bool_decide_eq_false_2; [done | lia].
Qed.

Lemma cacheGet_expired now original c e :
  map_get (toLowerCase original) c = Some e -> expiresAt e < now ->
  cacheGet now original c = (JNull, map_delete (toLowerCase original) c).
Proof.
  unfold cacheGet. intros -> Hexp. rewrite bool_decide_eq_true_2; [done | lia].
Qed.

Lemma cacheGet_same_key now a b c :
  toLowerCase a = toLowerCase b -> cacheGet now a c = cacheGet now b c.
Proof. unfold cacheGet. by intros ->. Qed.

Lemma cacheSet_same_key now a b v c :
  toLowerCase a = toLowerCase b -> cacheSet cfg now a v c = cacheSet cfg now b v c.
Proof. unfold cacheSet. by intros ->. Qed.

Lemma cacheSet_below now original v c :
  map_size c < MAX_CACHE_ENTRIES cfg ->
  cacheSet cfg now original v c =
  map_set (toLowerCase original)
    {| translated := v; expiresAt := now + CACHE_TTL_MS cfg |} c.
Proof.
  intros Hlt. unfold cacheSet. rewrite bool_decide_eq_false_2; [done | lia].
Qed.

Lemma cacheSet_full now original v k0 e0 rest :
  NoDup (keys ((k0, e0) :: rest)) ->
  map_size ((k0, e0) :: rest) >= MAX_CACHE_ENTRIES cfg ->
  cacheSet cfg now original v ((k0, e0) :: rest) =
  map_set (toLowerCase original)
    {| translated := v; expiresAt := now + CACHE_TTL_MS cfg |} rest.
Proof.
  intros Hnd Hge. unfold cacheSet. rewrite bool_decide_eq_true_2 by done.
  cbn [map_first_key map_delete]. rewrite decide_True by done.
  rewrite map_delete_absent; [done|].
  unfold keys in Hnd. rewrite fmap_cons in Hnd. by apply NoDup_cons in Hnd as [? _].
Qed.

Lemma cacheSet_stored now original v c :
  map_get (toLowerCase original) (cacheSet cfg now original v c) =
  Some {| translated := v; expiresAt := now + CACHE_TTL_MS cfg |}.
Proof. unfold cacheSet. apply map_get_set_eq. Qed.

Lemma cacheSet_NoDup now original v c :
  NoDup (keys c) -> NoDup (keys (cacheSet cfg now original v c)).
Proof.
  intros Hnd. unfold cacheSet. apply NoDup_map_set.
  case_bool_decide; [|done]. destruct (map_first_key c); [|done].
  by apply NoDup_map_delete.
Qed.

Lemma cacheGet_NoDup now original c :
  NoDup (keys c) -> NoDup (keys (cacheGet now original c).2).
Proof.
  intros Hnd. unfold cacheGet. destruct (map_get _ c); [|done].
  case_bool_decide; [|done]. by apply NoDup_map_delete.
Qed.

Lemma cacheGet_size now original c :
  map_size (cacheGet now original c).2 <= map_size c.
Proof.
  unfold cacheGet, map_size. destruct (map_get _ c); [|simpl; lia].
  case_bool_decide; simpl; [|lia].
  pose proof (length_map_delete c (toLowerCase original)). lia.
Qed.

Lemma cacheSet_size now original v c :
  0 < MAX_CACHE_ENTRIES cfg ->
  map_size c <= MAX_CACHE_ENTRIES cfg ->
  map_size (cacheSet cfg now original v c) <= MAX_CACHE_ENTRIES cfg.
Proof.
  intros Hpos Hle. unfold cacheSet, map_size in *.
  set (e := {| translated := v; expiresAt := _ |}).
  case_bool_decide as Hfull.
  - destruct c as [|[k0 e0] rest]; [simpl in *; lia|].
    cbn [map_first_key map_delete]. rewrite decide_True by done.
    pose proof (length_map_set (map_delete k0 rest) (toLowerCase original) e).
    pose proof (length_map_delete rest k0). simpl in *. lia.
  - pose proof (length_map_set c (toLowerCase original) e). lia.
Qed.

Lemma apply_op_NoDup c op : NoDup (keys c) -> NoDup (keys (apply_op cfg c op)).
Proof. destruct op; [apply cacheGet_NoDup | apply cacheSet_NoDup]. Qed.

Lemma apply_op_size c op :
  0 < MAX_CACHE_ENTRIES cfg ->
  map_size c <= MAX_CACHE_ENTRIES cfg ->
  map_size (apply_op cfg c op) <= MAX_CACHE_ENTRIES cfg.
Proof.
  intros Hpos Hle. destruct op as [now o|now o v]; simpl.
  - pose proof (cacheGet_size now o c). lia.
  - by apply cacheSet_size.
Qed.

Lemma run_snoc ops op : run cfg (ops ++ [op]) = apply_op cfg (run cfg ops) op.
Proof. unfold run. by rewrite foldl_app. Qed.

Lemma run_NoDup ops : NoDup (keys (run cfg ops)).
Proof.
  induction ops as [|op ops IH] using rev_ind; [apply NoDup_nil_2|].
  rewrite run_snoc. by apply apply_op_NoDup.
Qed.

Lemma run_size ops :
  0 < MAX_CACHE_ENTRIES cfg -> map_size (run cfg ops) <= MAX_CACHE_ENTRIES cfg.
Proof.
  intros Hpos. induction ops as [|op ops IH] using rev_ind.
  - unfold run, map_size. simpl. lia.
  - rewrite run_snoc. by apply apply_op_size.
Qed.
End cache_facts.

(** * The claims *)

(** ** Time to live *)

(** C3, as stated, fails on the boundary: an entry stored at time 1000 with a
    time to live of 3600000 is still returned by a get at time 3601000, where
    the claim has it absent. *)
Lemma C3_boundary_counterexample :
  let P := ascii_platform in
  let cfg := config 3600000 500 None in
  let c := cacheSet cfg 1000 "perro" (JStr "cachorro") [] in
  3601000 >= 1000 + CACHE_TTL_MS cfg /\
  cacheGet 3601000 "perro" c = (JStr "cachorro", c) /\
  (cacheGet 3601000 "perro" c).1 <> JNull.
Proof. vm_compute. split; [discriminate | split; [reflexivity | discriminate]]. Qed.

(** C3, amended: after [cacheSet] at time [t0], a [cacheGet] of the same key
    at time [t] returns the stored value and leaves the cache as it is when
    [t <= t0 + CACHE_TTL_MS] (the boundary included); when
    [t > t0 + CACHE_TTL_MS] it returns [null] and deletes the entry. *)
Theorem C3_time_to_live `{Platform} (cfg : Config) (c : Cache) (t0 t : Z)
    (original : string) (v : JSValue) :
  let c' := cacheSet cfg t0 original v c in
  (t <= t0 + CACHE_TTL_MS cfg -> cacheGet t original c' = (v, c')) /\
  (t > t0 + CACHE_TTL_MS cfg ->
     cacheGet t original c' = (JNull, map_delete (toLowerCase original) c') /\
     map_get (toLowerCase original) (cacheGet t original c').2 = None).
Proof.
  intros c'. pose proof (cacheSet_stored cfg t0 original v c) as Hst.
  fold c' in Hst. split.
  - intros Hlive. by rewrite (cacheGet_live _ _ _ _ Hst).
  - intros Hexp. rewrite (cacheGet_expired _ _ _ _ Hst) by (simpl; lia).
    split; [done|]. apply map_get_delete_eq.
Qed.

(** ** Capacity and eviction *)

Section eviction.
Context `{Platform} (cfg : Config).

Lemma map_size_keys (c : Cache) : map_size c = Z.of_nat (length (keys c)).
Proof. unfold map_size, keys. by rewrite length_fmap. Qed.

(** On a full map a new key pushes the first entry out and goes last. *)
Lemma cacheSet_evicts now original v k0 e0 rest :
  NoDup (keys ((k0, e0) :: rest)) ->
  map_size ((k0, e0) :: rest) >= MAX_CACHE_ENTRIES cfg ->
  toLowerCase original ∉ keys ((k0, e0) :: rest) ->
  cacheSet cfg now original v ((k0, e0) :: rest) =
  rest ++ [(toLowerCase original,
            {| translated := v; expiresAt := now + CACHE_TTL_MS cfg |})].
Proof.
  intros Hnd Hfull Hnew. rewrite cacheSet_full by done.
  apply map_set_absent. unfold keys in *. rewrite fmap_cons in Hnew.
  by apply not_elem_of_cons in Hnew as [_ ?].
Qed.

(** Distinct keys put into an empty map stay in the order of the puts as
    long as they fit. *)
Lemma run_distinct_below (sets : list CacheOp) :
  Forall (λ op, is_set op = true) sets ->
  NoDup (op_key <$> sets) ->
  Z.of_nat (length sets) <= MAX_CACHE_ENTRIES cfg ->
  keys (run cfg sets) = op_key <$> sets.
Proof.
  induction sets as [|op sets IH] using rev_ind; [done|].
  rewrite Forall_app, Forall_singleton, fmap_app, length_app. simpl.
  intros [Hall Hop] [Hnd [Hfresh _]]%NoDup_app Hlen.
  specialize (IH Hall Hnd ltac:(lia)).
  destruct op as [|now o v]; [done|]. rewrite run_snoc. simpl.
  rewrite cacheSet_below by (rewrite map_size_keys, IH, length_fmap; lia).
  rewrite map_set_absent.
  - unfold keys in *. by rewrite fmap_app, IH.
  - rewrite IH. intros Hin. apply (Hfresh _ Hin). simpl. apply list_elem_of_here.
Qed.

(** One distinct key more than fits: the first key put is the one missing. *)
Lemma run_distinct_overflow (sets : list CacheOp) :
  0 < MAX_CACHE_ENTRIES cfg ->
  Forall (λ op, is_set op = true) sets ->
  NoDup (op_key <$> sets) ->
  Z.of_nat (length sets) = MAX_CACHE_ENTRIES cfg + 1 ->
  keys (run cfg sets) = tail (op_key <$> sets).
Proof.
  intros Hpos. destruct sets as [|op sets _] using rev_ind; [simpl; lia|].
  rewrite Forall_app, Forall_singleton, fmap_app, length_app. simpl.
  intros [Hall Hop] [Hnd [Hfresh _]]%NoDup_app Hlen.
  pose proof (run_distinct_below sets Hall Hnd ltac:(lia)) as Hkeys.
  pose proof (run_NoDup cfg sets) as Hnd'.
  destruct op as [|now o v]; [done|]. rewrite run_snoc. simpl.
  assert (toLowerCase o ∉ keys (run cfg sets)) as Hnew.
  { rewrite Hkeys. intros Hin. apply (Hfresh _ Hin). simpl. apply list_elem_of_here. }
  assert (map_size (run cfg sets) = MAX_CACHE_ENTRIES cfg) as Hsize.
  { rewrite map_size_keys, Hkeys, length_fmap. lia. }
  destruct (run cfg sets) as [|[k0 e0] rest] eqn:Hrun.
  { unfold map_size in Hsize. simpl in Hsize. lia. }
  rewrite cacheSet_evicts by (done || lia).
  unfold keys in *. rewrite fmap_app, <- Hkeys. done.
Qed.
End eviction.

(** C4: with a positive capacity, (1) after any sequence of operations on an
    empty cache the number of entries is at most the capacity; (2) on a cache
    that holds exactly [MAX_CACHE_ENTRIES] entries, [cacheSet] of a key that is
    not resident removes the first entry in insertion order, and only that one,
    and appends the new one: a later get of the removed key misses, a get of
    any other resident key returns its entry while it has not expired, and so
    does a get of the new key; (3) putting one distinct key more than fits
    into an empty cache leaves the keys in the order they were put, without
    the first. *)
Theorem C4_capacity_and_eviction `{Platform} (cfg : Config) :
  0 < MAX_CACHE_ENTRIES cfg ->
  (forall ops, map_size (run cfg ops) <= MAX_CACHE_ENTRIES cfg) /\
  (forall c now original v,
     NoDup (keys c) ->
     map_size c = MAX_CACHE_ENTRIES cfg ->
     toLowerCase original ∉ keys c ->
     exists k0 e0 rest,
       c = (k0, e0) :: rest /\
       let c' := cacheSet cfg now original v c in
       c' = rest ++ [(toLowerCase original,
                      {| translated := v; expiresAt := now + CACHE_TTL_MS cfg |})] /\
       map_size c' = MAX_CACHE_ENTRIES cfg /\
       (forall t o, toLowerCase o = k0 -> cacheGet t o c' = (JNull, c')) /\
       (forall t o e, toLowerCase o <> k0 ->
          map_get (toLowerCase o) c = Some e -> t <= expiresAt e ->
          cacheGet t o c' = (translated e, c')) /\
       (forall t, t <= now + CACHE_TTL_MS cfg -> cacheGet t original c' = (v, c'))) /\
  (forall sets,
     Forall (λ op, is_set op = true) sets ->
     NoDup (op_key <$> sets) ->
     Z.of_nat (length sets) = MAX_CACHE_ENTRIES cfg + 1 ->
     keys (run cfg sets) = tail (op_key <$> sets)).
Proof.
  intros Hpos. split; [|split].
  - intros ops. by apply run_size.
  - intros c now original v Hnd Hsize Hnew.
    destruct c as [|[k0 e0] rest]; [unfold map_size in Hsize; simpl in Hsize; lia|].
    exists k0, e0, rest. split; [done|]. intros c'.
    assert (c' = rest ++ [(toLowerCase original,
                {| translated := v; expiresAt := now + CACHE_TTL_MS cfg |})]) as Hc'.
    { apply cacheSet_evicts; [done | lia | done]. }
    pose proof Hnd as Hnd0. unfold keys in Hnd0. rewrite fmap_cons in Hnd0.
    apply NoDup_cons in Hnd0 as [Hk0 _]. simpl in Hk0.
    assert (k0 <> toLowerCase original) as Hne.
    { intros ->. apply Hnew. unfold keys. rewrite fmap_cons. apply list_elem_of_here. }
    assert (rest = map_delete k0 ((k0, e0) :: rest)) as Hrest.
    { simpl. rewrite decide_True by done. by rewrite map_delete_absent. }
    assert (c' = map_set (toLowerCase original)
                  {| translated := v; expiresAt := now + CACHE_TTL_MS cfg |}
                  (map_delete k0 ((k0, e0) :: rest))) as Hset.
    { rewrite <- Hrest. subst c'. apply cacheSet_full; [done | lia]. }
    split; [done|]. split; [|split; [|split]].
    + rewrite Hc'. unfold map_size in *. rewrite length_app. simpl in *. lia.
    + intros t o Ho. apply cacheGet_absent.
      rewrite Ho, Hset, map_get_set_ne by done. apply map_get_delete_eq.
    + intros t o e Ho Hget Hlive. apply cacheGet_live; [|done].
      rewrite Hset, map_get_set_ne.
      * by rewrite map_get_delete_ne.
      * intros Heq. apply Hnew. apply (map_get_Some_elem _ _ e). by rewrite Heq.
    + intros t Hlive.
      apply (cacheGet_live t original c'
               {| translated := v; expiresAt := now + CACHE_TTL_MS cfg |});
        [apply cacheSet_stored | simpl; lia].
  - intros sets. by apply run_distinct_overflow.
Qed.

(** C4 at capacity 3: after putting A, B, C and D the keys are b, c, d. *)
Lemma C4_capacity_and_eviction_witness :
  let P := ascii_platform in
  0 < MAX_CACHE_ENTRIES (config 3600000 3 None) /\
  keys (run (config 3600000 3 None)
          [OpSet 1 "A" (JStr "a1"); OpSet 2 "B" (JStr "b1");
           OpSet 3 "C" (JStr "c1"); OpSet 4 "D" (JStr "d1")]) = ["b"; "c"; "d"].
Proof.
  intros P. split; [reflexivity|].
  refine (proj2 (proj2 (C4_capacity_and_eviction (config 3600000 3 None) eq_refl))
            [OpSet 1 "A" (JStr "a1"); OpSet 2 "B" (JStr "b1");
             OpSet 3 "C" (JStr "c1"); OpSet 4 "D" (JStr "d1")] _ _ _).
  - repeat constructor.
  - apply (bool_decide_unpack _). vm_compute. exact I.
  - reflexivity.
Defined.

(** C6, as stated, fails: at capacity, [cacheSet] removes the first entry
    whether or not the key is new.  With capacity 2 and entries a and b, a put
    of b (resident) removes a. *)
Lemma C6_overwrite_evicts_counterexample :
  let P := ascii_platform in
  let cfg := config 3600000 2 None in
  let c := run cfg [OpSet 1000 "a" (JStr "x"); OpSet 1001 "b" (JStr "y")] in
  let c' := cacheSet cfg 2000 "b" (JStr "z") c in
  map_size c = MAX_CACHE_ENTRIES cfg /\
  keys c = ["a"; "b"] /\
  map_get "a" c = Some {| translated := JStr "x"; expiresAt := 3601000 |} /\
  map_get "a" c' = None /\
  c' = [("b", {| translated := JStr "z"; expiresAt := 3602000 |})].
Proof. vm_compute. repeat split. Qed.

(** C6, amended: a [cacheSet] whose key (case folded) is resident leaves that
    key with the new value and the expiry [now + CACHE_TTL_MS].  Below
    capacity nothing else changes: the keys and their order stay, every other
    entry is as before.  At capacity ([size >= MAX_CACHE_ENTRIES]) the first
    entry in insertion order is removed although the key is not new: when it
    belongs to another key that key is gone, when it is the key itself the
    key moves to the end; the remaining entries are as before. *)
Theorem C6_overwrite `{Platform} (cfg : Config) (c : Cache) (now : Z) (original : string)
    (v : JSValue) (old : CacheEntry) :
  NoDup (keys c) ->
  map_get (toLowerCase original) c = Some old ->
  let key := toLowerCase original in
  let e := {| translated := v; expiresAt := now + CACHE_TTL_MS cfg |} in
  let c' := cacheSet cfg now original v c in
  map_get key c' = Some e /\
  (map_size c < MAX_CACHE_ENTRIES cfg ->
     keys c' = keys c /\ forall k, k <> key -> map_get k c' = map_get k c) /\
  (map_size c >= MAX_CACHE_ENTRIES cfg ->
     exists k0 e0 rest,
       c = (k0, e0) :: rest /\
       (k0 <> key -> map_get k0 c' = None /\ keys c' = keys rest) /\
       (k0 = key -> c' = rest ++ [(key, e)]) /\
       (forall k, k <> key -> k <> k0 -> map_get k c' = map_get k c)).
Proof.
  intros Hnd Hold key e c'. split; [apply cacheSet_stored|]. split.
  - intros Hlt. subst c'. rewrite cacheSet_below by done. fold key e. split.
    + apply keys_map_set_resident. by apply (map_get_Some_elem _ _ old).
    + intros k Hk. by apply map_get_set_ne.
  - intros Hge. destruct c as [|[k0 e0] rest]; [done|].
    exists k0, e0, rest. split; [done|].
    assert (c' = map_set key e rest) as Hc' by (by apply cacheSet_full).
    pose proof Hnd as Hnd0. unfold keys in Hnd0. rewrite fmap_cons in Hnd0.
    apply NoDup_cons in Hnd0 as [Hk0 _]. simpl in Hk0.
    rewrite Hc'. split; [|split].
    + intros Hne. simpl in Hold. rewrite decide_False in Hold by done. split.
      * rewrite map_get_set_ne by done. by apply map_get_None.
      * apply keys_map_set_resident. by apply (map_get_Some_elem _ _ old).
    + intros ->. by apply map_set_absent.
    + intros k Hk Hk0'. rewrite map_get_set_ne by done.
      simpl. by rewrite decide_False.
Qed.

(** C6 on a cache holding a and b, below the capacity of 500. *)
Lemma C6_overwrite_witness :
  let P := ascii_platform in
  let cfg := config 3600000 500 None in
  let c := run cfg [OpSet 1000 "a" (JStr "x"); OpSet 1001 "b" (JStr "y")] in
  map_get "b" (cacheSet cfg 2000 "B" (JStr "z") c) =
  Some {| translated := JStr "z"; expiresAt := 3602000 |}.
Proof.
  intros P cfg c.
  refine (proj1 (C6_overwrite cfg c 2000 "B" (JStr "z")
                   {| translated := JStr "y"; expiresAt := 3601001 |} _ _)).
  - apply run_NoDup.
  - reflexivity.
Defined.


(** ** The handler, path by path *)

Section handler_facts.
Context `{Platform} (cfg : Config) (w : World).
Implicit Types (c : Cache) (query : gmap string JSValue).

Lemma api_key_not_empty key : api_key cfg = Some key -> key <> "".
Proof.
  unfold api_key. destruct (GOOGLE_TRANSLATE_API_KEY cfg) as [k|]; [|done].
  destruct (String.eqb k "") eqn:Hk; [done|].
  intros [= <-] ->. done.
Qed.

Lemma resolve_hit spanishKeywords c :
  truthy (cacheGet (now_get w) spanishKeywords c).1 = true ->
  resolve cfg w spanishKeywords c =
  ({| portugueseKeywords := (cacheGet (now_get w) spanishKeywords c).1;
      attempted := false; cacheHit := true;
      raised := negb (stringifies (cacheGet (now_get w) spanishKeywords c).1) |},
   (cacheGet (now_get w) spanishKeywords c).2, []).
Proof.
  unfold resolve, js_or. destruct (cacheGet _ _ c) as [cached c1]. simpl.
  by intros ->.
Qed.

Lemma resolve_no_key spanishKeywords c :
  truthy (cacheGet (now_get w) spanishKeywords c).1 = false ->
  api_key cfg = None ->
  resolve cfg w spanishKeywords c =
  ({| portugueseKeywords := JStr spanishKeywords;
      attempted := false; cacheHit := false; raised := false |},
   (cacheGet (now_get w) spanishKeywords c).2, []).
Proof.
  unfold resolve, js_or. destruct (cacheGet _ _ c) as [cached c1]. simpl.
  by intros -> ->.
Qed.

Lemma resolve_throws spanishKeywords c key :
  truthy (cacheGet (now_get w) spanishKeywords c).1 = false ->
  api_key cfg = Some key ->
  translation_throws (translate_post w spanishKeywords "pt" key) = true ->
  resolve cfg w spanishKeywords c =
  ({| portugueseKeywords := JStr spanishKeywords;
      attempted := true; cacheHit := false; raised := false |},
   (cacheGet (now_get w) spanishKeywords c).2,
   [TranslateCall spanishKeywords "pt" key]).
Proof.
  unfold resolve, js_or, translation_throws.
  destruct (cacheGet _ _ c) as [cached c1]. simpl. intros -> ->. simpl.
  destruct (translate_post _ _ _ _) as [|status body]; [done|].
  by destruct (translatedText_of body).
Qed.

Lemma resolve_translated spanishKeywords c key status body text :
  truthy (cacheGet (now_get w) spanishKeywords c).1 = false ->
  api_key cfg = Some key ->
  translate_post w spanishKeywords "pt" key = Resolved status body ->
  translatedText_of body = Some text ->
  resolve cfg w spanishKeywords c =
  ({| portugueseKeywords := text; attempted := true; cacheHit := false;
      raised := false |},
   cacheSet cfg (now_set w) spanishKeywords text
     (cacheGet (now_get w) spanishKeywords c).2,
   [TranslateCall spanishKeywords "pt" key]).
Proof.
  unfold resolve. destruct (cacheGet _ _ c) as [cached c1]. simpl.
  by intros -> -> -> ->.
Qed.

(** The log line can raise on a hit only. *)
Lemma resolve_raised spanishKeywords c :
  raised (resolve cfg w spanishKeywords c).1.1 =
  truthy (cacheGet (now_get w) spanishKeywords c).1 &&
  negb (stringifies (cacheGet (now_get w) spanishKeywords c).1).
Proof.
  unfold resolve, js_or. destruct (cacheGet _ _ c) as [cached c1]. simpl.
  destruct (truthy cached); simpl; [done|].
  destruct (api_key cfg); [|done].
  destruct (translate_post _ _ _ _); [done|]. by destruct (translatedText_of _).
Qed.

Lemma resolve_calls spanishKeywords c :
  (resolve cfg w spanishKeywords c).2 = [] \/
  exists key,
    api_key cfg = Some key /\
    truthy (cacheGet (now_get w) spanishKeywords c).1 = false /\
    (resolve cfg w spanishKeywords c).2 = [TranslateCall spanishKeywords "pt" key].
Proof.
  unfold resolve. destruct (cacheGet _ _ c) as [cached c1]. simpl.
  destruct (truthy cached); simpl; [by left|].
  destruct (api_key cfg) as [key|]; [|by left].
  right. exists key. split; [done|]. split; [done|].
  destruct (translate_post _ _ _ _); [done|]. by destruct (translatedText_of _).
Qed.

Lemma forwarded_resolve spanishKeywords c :
  forwarded (resolve cfg w spanishKeywords c).2 = [].
Proof. by destruct (resolve_calls spanishKeywords c) as [-> | (key & _ & _ & ->)]. Qed.

(** The cache a request leaves: the one the lookup left, or that one after a
    put of the translated text. *)
Lemma resolve_cache spanishKeywords c :
  let c1 := (cacheGet (now_get w) spanishKeywords c).2 in
  (resolve cfg w spanishKeywords c).1.2 = c1 \/
  exists text, (resolve cfg w spanishKeywords c).1.2 =
               cacheSet cfg (now_set w) spanishKeywords text c1.
Proof.
  unfold resolve. destruct (cacheGet _ _ c) as [cached c1]. simpl.
  destruct (truthy cached); simpl; [by left|].
  destruct (api_key cfg); [|by left].
  destruct (translate_post _ _ _ _); [by left|].
  destruct (translatedText_of _); [right; by eexists | by left].
Qed.

Lemma hasKeywords_usable raw : trim raw <> "" -> hasKeywords (Some (JStr raw)) = true.
Proof. simpl. by destruct (trim raw). Qed.

Lemma hasKeywords_blank raw : trim raw = "" -> hasKeywords (Some (JStr raw)) = false.
Proof. simpl. by intros ->. Qed.

Lemma hasKeywords_true query :
  hasKeywords (query !! "keywords") = true ->
  exists raw, query !! "keywords" = Some (JStr raw) /\ trim raw <> "".
Proof.
  destruct (query !! "keywords") as [[]|] eqn:Hq; try done.
  intros Hhas. eexists. split; [done|]. simpl in Hhas. by intros Ht; rewrite Ht in Hhas.
Qed.

Lemma search_without_keywords query c :
  hasKeywords (query !! "keywords") = false ->
  search cfg w query c =
  (relay (search_get w (internalApiUrl cfg) (delete "keywords" query)) [],
   c,
   [SearchCall (internalApiUrl cfg) (delete "keywords" query)]).
Proof. unfold search. by intros ->. Qed.

Lemma search_with_keywords query c raw :
  query !! "keywords" = Some (JStr raw) ->
  trim raw <> "" ->
  search cfg w query c =
  let r := resolve cfg w (trim raw) c in
  let forwardParams := <["keywords" := portugueseKeywords r.1.1]> query in
  if raised r.1.1 then (internal_error, r.1.2, r.2)
  else
    (relay (search_get w (internalApiUrl cfg) forwardParams)
       [("X-Translate-Attempted", flag (attempted r.1.1));
        ("X-Translate-Cached", flag (cacheHit r.1.1));
        ("X-Source-Keywords", JStr (trim raw));
        ("X-Translated-Keywords", portugueseKeywords r.1.1)],
     r.1.2,
     r.2 ++ [SearchCall (internalApiUrl cfg) forwardParams]).
Proof.
  unfold search. intros -> Hraw. rewrite (hasKeywords_usable raw Hraw).
  cbn [negb string_of].
  by destruct (resolve cfg w (trim raw) c) as [[o c'] calls].
Qed.

(** What the four [res.set] calls leave. *)
Lemma set_headers_four (a b : bool) (source text : JSValue) :
  set_headers
    [("X-Translate-Attempted", flag a); ("X-Translate-Cached", flag b);
     ("X-Source-Keywords", source); ("X-Translated-Keywords", text)] =
  if header_ok source then
    if header_ok text then
      ([("X-Translate-Attempted", flag a); ("X-Translate-Cached", flag b);
        ("X-Source-Keywords", source); ("X-Translated-Keywords", text)], true)
    else
      ([("X-Translate-Attempted", flag a); ("X-Translate-Cached", flag b);
        ("X-Source-Keywords", source)], false)
  else ([("X-Translate-Attempted", flag a); ("X-Translate-Cached", flag b)], false).
Proof.
  assert (forall x, header_ok (flag x) = true) as Hflag.
  { intros []; [apply header_ok_1 | apply header_ok_0]. }
  simpl. rewrite !Hflag.
  destruct (header_ok source); [|done]. by destruct (header_ok text).
Qed.
End handler_facts.

(** A request that translated and stored a truthy text is followed, within
    the time to live, by a hit for the same keywords: no second provider
    call, and the cache stays as it is. *)
Lemma resolve_twice `{Platform} (cfg : Config) (w1 w2 : World)
    (spanishKeywords key : string) (c : Cache) (status : Z) (body text : JSValue) :
  truthy (cacheGet (now_get w1) spanishKeywords c).1 = false ->
  api_key cfg = Some key ->
  translate_post w1 spanishKeywords "pt" key = Resolved status body ->
  translatedText_of body = Some text ->
  truthy text = true ->
  now_get w2 <= now_set w1 + CACHE_TTL_MS cfg ->
  let c' := (resolve cfg w1 spanishKeywords c).1.2 in
  resolve cfg w2 spanishKeywords c' =
  ({| portugueseKeywords := text; attempted := false; cacheHit := true;
      raised := negb (stringifies text) |}, c', []).
Proof.
  intros Hmiss Hkey Hpost Htext Htrue Hlive c'. subst c'.
  rewrite (resolve_translated cfg w1 _ c _ _ _ _ Hmiss Hkey Hpost Htext). simpl.
  set (c' := cacheSet _ _ _ _ _).
  assert (cacheGet (now_get w2) spanishKeywords c' = (text, c')) as Hget.
  { apply (cacheGet_live _ _ _
             {| translated := text; expiresAt := now_set w1 + CACHE_TTL_MS cfg |});
      [apply cacheSet_stored | done]. }
  rewrite resolve_hit; by rewrite Hget.
Qed.

(** The end-to-end scenarios: keywords=perro translated to cachorro, asked
    twice; keywords=gato while the provider times out. *)
Example scenario_perro_twice :
  let P := ascii_platform in
  let cfg := config 3600000 500 (Some "k") in
  let w := world 1000 1001 (Resolved 200 (translation_body (JStr "cachorro")))
             (Resolved 200 (JArr [])) in
  let query : gmap string JSValue := {[ "keywords" := JStr "perro" ]} in
  let first := search cfg w query [] in
  let second := search cfg w query first.1.2 in
  first.2 =
    [TranslateCall "perro" "pt" "k";
     SearchCall (internalApiUrl cfg) {[ "keywords" := JStr "cachorro" ]}] /\
  second.2 = [SearchCall (internalApiUrl cfg) {[ "keywords" := JStr "cachorro" ]}] /\
  res_headers second.1.1 =
    [("X-Translate-Attempted", JStr "0"); ("X-Translate-Cached", JStr "1");
     ("X-Source-Keywords", JStr "perro"); ("X-Translated-Keywords", JStr "cachorro")].
Proof. vm_compute. repeat split. Qed.

Example scenario_gato_timeout :
  let P := ascii_platform in
  let cfg := config 3600000 500 (Some "k") in
  let w := world 1000 1001 Rejected (Resolved 200 (JArr [JStr "ad"])) in
  search cfg w {[ "keywords" := JStr "gato" ]} [] =
  ({| res_status := 200;
      res_headers :=
        [("X-Translate-Attempted", JStr "1"); ("X-Translate-Cached", JStr "0");
         ("X-Source-Keywords", JStr "gato"); ("X-Translated-Keywords", JStr "gato")];
      res_body := JArr [JStr "ad"] |},
   [],
   [TranslateCall "gato" "pt" "k";
    SearchCall (internalApiUrl cfg) {[ "keywords" := JStr "gato" ]}]).
Proof. vm_compute. reflexivity. Qed.

(** ** Cache hit *)

(** C2, as stated, fails when the cached value is the empty string: the
    handler tells a hit from a miss by the truth value of what [cacheGet]
    returns.  A first request for "hola", to which the provider answers with
    an empty translation, leaves a live entry; a second request at time 2000
    finds it, reports no hit and calls the provider again. *)
Lemma C2_empty_translation_counterexample :
  let P := ascii_platform in
  let cfg := config 3600000 500 (Some "k") in
  let w1 := world 1000 1001 (Resolved 200 (translation_body (JStr "")))
              (Resolved 200 (JArr [])) in
  let w2 := world 2000 2001 (Resolved 200 (translation_body (JStr "")))
              (Resolved 200 (JArr [])) in
  let c1 := (search cfg w1 {[ "keywords" := JStr "hola" ]} []).1.2 in
  map_get (toLowerCase "hola") c1 =
    Some {| translated := JStr ""; expiresAt := 3601001 |} /\
  now_get w2 <= 3601001 /\
  cacheHit (resolve cfg w2 "hola" c1).1.1 = false /\
  attempted (resolve cfg w2 "hola" c1).1.1 = true /\
  (resolve cfg w2 "hola" c1).2 = [TranslateCall "hola" "pt" "k"].
Proof. vm_compute. repeat split. discriminate. Qed.

(** C2, amended: for every source text with a live cache entry whose value is
    truthy and can be converted to a string (any non-empty string is and
    can), the handler takes the cached value, with [cacheHit = true] and
    [attempted = false]; it makes no call to the provider and leaves the
    cache as it is, and a request for that text goes on to the forward call
    with the cached value in the [keywords] field. *)
Theorem C2_cache_hit `{Platform} (cfg : Config) (w : World)
    (spanishKeywords : string) (c : Cache) (e : CacheEntry) :
  map_get (toLowerCase spanishKeywords) c = Some e ->
  now_get w <= expiresAt e ->
  truthy (translated e) = true ->
  stringifies (translated e) = true ->
  resolve cfg w spanishKeywords c =
    ({| portugueseKeywords := translated e; attempted := false; cacheHit := true;
        raised := false |},
     c, []) /\
  forall query raw,
    query !! "keywords" = Some (JStr raw) -> trim raw = spanishKeywords ->
    trim raw <> "" ->
    (search cfg w query c).1.2 = c /\
    (search cfg w query c).2 =
      [SearchCall (internalApiUrl cfg) (<["keywords" := translated e]> query)].
Proof.
  intros Hget Hlive Htrue Hstr.
  pose proof (cacheGet_live _ _ _ _ Hget Hlive) as Hc.
  assert (resolve cfg w spanishKeywords c =
          ({| portugueseKeywords := translated e; attempted := false;
              cacheHit := true; raised := false |}, c, [])) as Hres.
  { rewrite resolve_hit; rewrite Hc; simpl; [|done]. by rewrite Hstr. }
  split; [done|]. intros query raw Hq <- Hraw.
  rewrite (search_with_keywords cfg w query c raw Hq Hraw). cbv zeta.
  by rewrite Hres.
Qed.

(** C2 on the second of two requests for "perro". *)
Lemma C2_cache_hit_witness :
  let P := ascii_platform in
  let cfg := config 3600000 500 (Some "k") in
  let w := world 1000 1001 (Resolved 200 (translation_body (JStr "cachorro")))
             (Resolved 200 (JArr [])) in
  let c1 := (search cfg w {[ "keywords" := JStr "perro" ]} []).1.2 in
  resolve cfg w "perro" c1 =
  ({| portugueseKeywords := JStr "cachorro"; attempted := false; cacheHit := true;
      raised := false |},
   c1, []).
Proof.
  intros P cfg w c1.
  refine (proj1 (C2_cache_hit cfg w "perro" c1
                   {| translated := JStr "cachorro"; expiresAt := 3601001 |} _ _ _ _)).
  - reflexivity.
  - vm_compute. discriminate.
  - reflexivity.
  - reflexivity.
Defined.

(** ** Translation *)

(** C7: on a miss, with a key configured and a provider reply from which the
    translated text is read, the handler stores the text in the cache under
    the source text, takes it as the keywords with [attempted = true] and
    [cacheHit = false], and forwards the query with the text in the
    [keywords] field. *)
Theorem C7_translate_and_store `{Platform} (cfg : Config) (w : World)
    (query : gmap string JSValue) (c : Cache) (raw key : string)
    (status : Z) (body text : JSValue) :
  query !! "keywords" = Some (JStr raw) ->
  trim raw <> "" ->
  truthy (cacheGet (now_get w) (trim raw) c).1 = false ->
  api_key cfg = Some key ->
  translate_post w (trim raw) "pt" key = Resolved status body ->
  translatedText_of body = Some text ->
  let c1 := (cacheGet (now_get w) (trim raw) c).2 in
  let c' := cacheSet cfg (now_set w) (trim raw) text c1 in
  resolve cfg w (trim raw) c =
    ({| portugueseKeywords := text; attempted := true; cacheHit := false;
        raised := false |},
     c', [TranslateCall (trim raw) "pt" key]) /\
  map_get (toLowerCase (trim raw)) c' =
    Some {| translated := text; expiresAt := now_set w + CACHE_TTL_MS cfg |} /\
  (search cfg w query c).1.2 = c' /\
  (search cfg w query c).2 =
    [TranslateCall (trim raw) "pt" key;
     SearchCall (internalApiUrl cfg) (<["keywords" := text]> query)] /\
  (<["keywords" := text]> query) !! "keywords" = Some text.
Proof.
  intros Hq Hraw Hmiss Hkey Hpost Htext c1 c'.
  pose proof (resolve_translated cfg w _ c _ _ _ _ Hmiss Hkey Hpost Htext) as Hres.
  fold c1 c' in Hres. split; [done|]. split; [apply cacheSet_stored|].
  rewrite (search_with_keywords cfg w query c raw Hq Hraw). cbv zeta.
  rewrite Hres. simpl. split; [done|]. split; [done|].
  apply lookup_insert_eq.
Qed.

(** C7 on the request keywords=" Perro " with an empty cache: the provider is
    asked for "Perro", the text is stored under "perro" and forwarded. *)
Lemma C7_translate_and_store_witness :
  let P := ascii_platform in
  let cfg := config 3600000 500 (Some "k") in
  let w := world 1000 1001 (Resolved 200 (translation_body (JStr "cachorro")))
             (Resolved 200 (JArr [])) in
  let query : gmap string JSValue := {[ "keywords" := JStr " Perro "; "page" := JStr "2" ]} in
  (search cfg w query []).1.2 =
    [("perro", {| translated := JStr "cachorro"; expiresAt := 3601001 |})] /\
  (search cfg w query []).2 =
    [TranslateCall "Perro" "pt" "k";
     SearchCall (internalApiUrl cfg) (<["keywords" := JStr "cachorro"]> query)].
Proof.
  intros P cfg w query.
  destruct (C7_translate_and_store cfg w query [] " Perro " "k"
              200 (translation_body (JStr "cachorro")) (JStr "cachorro"))
    as (_ & _ & Hcache & Hcalls & _);
    [reflexivity | vm_compute; discriminate | reflexivity.. |].
  split; [exact Hcache | exact Hcalls].
Defined.

(** ** The cache key *)

(** C5: the key under which a text is looked up and stored is the text
    trimmed, by the handler before it calls [cacheGet] and [cacheSet], and
    case-folded, by these two.  So two keyword texts with the same trimmed and
    folded form, as "Hello", "  hello  " and "HELLO" have, reach the same
    entry: gets and puts for one are gets and puts for the other, a
    translation stored for one is returned for the other within the time to
    live, and a request for one hits exactly when a request for the other
    does, with the same text.  In particular, once a request for one has
    stored a translation that is truthy and converts to a string, a request
    for the other within the time to live calls no provider, forwards that
    translation and leaves the cache as it is. *)
Theorem C5_normalised_key `{Platform} (cfg : Config) (raw1 raw2 : string) :
  toLowerCase (trim raw1) = toLowerCase (trim raw2) ->
  (forall now c, cacheGet now (trim raw1) c = cacheGet now (trim raw2) c) /\
  (forall now v c,
     cacheSet cfg now (trim raw1) v c = cacheSet cfg now (trim raw2) v c) /\
  (forall t0 t v c, t <= t0 + CACHE_TTL_MS cfg ->
     (cacheGet t (trim raw2) (cacheSet cfg t0 (trim raw1) v c)).1 = v) /\
  (forall w c,
     let r1 := resolve cfg w (trim raw1) c in
     let r2 := resolve cfg w (trim raw2) c in
     cacheHit r1.1.1 = cacheHit r2.1.1 /\
     (cacheHit r1.1.1 = true ->
      portugueseKeywords r1.1.1 = portugueseKeywords r2.1.1 /\ r1.1.2 = r2.1.2)) /\
  (forall w1 w2 c (query1 query2 : gmap string JSValue) key status body text,
     query1 !! "keywords" = Some (JStr raw1) ->
     query2 !! "keywords" = Some (JStr raw2) ->
     trim raw1 <> "" -> trim raw2 <> "" ->
     truthy (cacheGet (now_get w1) (trim raw1) c).1 = false ->
     api_key cfg = Some key ->
     translate_post w1 (trim raw1) "pt" key = Resolved status body ->
     translatedText_of body = Some text ->
     truthy text = true -> stringifies text = true ->
     now_get w2 <= now_set w1 + CACHE_TTL_MS cfg ->
     let c1 := (search cfg w1 query1 c).1.2 in
     (search cfg w2 query2 c1).2 =
       [SearchCall (internalApiUrl cfg) (<["keywords" := text]> query2)] /\
     (search cfg w2 query2 c1).1.2 = c1).
Proof.
  intros Hkey. split; [|split; [|split; [|split]]].
  - intros now c. by apply cacheGet_same_key.
  - intros now v c. by apply cacheSet_same_key.
  - intros t0 t v c Hlive.
    rewrite <- (cacheGet_same_key t _ _ _ Hkey).
    by rewrite (cacheGet_live t (trim raw1) _
                  {| translated := v; expiresAt := t0 + CACHE_TTL_MS cfg |}
                  (cacheSet_stored cfg t0 (trim raw1) v c) Hlive).
  - intros w c. unfold resolve.
    rewrite (cacheGet_same_key (now_get w) _ _ c Hkey).
    destruct (cacheGet (now_get w) (trim raw2) c) as [cached c1].
    unfold js_or. destruct (truthy cached) eqn:Ht; simpl; [done|].
    split; [|intros Hhit; exfalso; revert Hhit];
      (destruct (api_key cfg); [|done]); by repeat case_match.
  - intros w1 w2 c query1 query2 key status body text Hq1 Hq2 Hraw1 Hraw2 Hmiss
      Hapi Hpost Htext Htruthy Hstr Hlive c1.
    assert (c1 = cacheSet cfg (now_set w1) (trim raw1) text
                   (cacheGet (now_get w1) (trim raw1) c).2) as Hc1.
    { unfold c1. rewrite (search_with_keywords cfg w1 query1 c raw1 Hq1 Hraw1).
      cbv zeta.
      by rewrite (resolve_translated cfg w1 _ c _ _ _ _ Hmiss Hapi Hpost Htext). }
    assert (cacheGet (now_get w2) (trim raw2) c1 = (text, c1)) as Hget.
    { rewrite <- (cacheGet_same_key (now_get w2) _ _ _ Hkey), Hc1.
      by rewrite (cacheGet_live (now_get w2) (trim raw1) _
                    {| translated := text;
                       expiresAt := now_set w1 + CACHE_TTL_MS cfg |}
                    (cacheSet_stored cfg (now_set w1) (trim raw1) text _) Hlive). }
    rewrite (search_with_keywords cfg w2 query2 c1 raw2 Hq2 Hraw2). cbv zeta.
    rewrite (resolve_hit cfg w2 (trim raw2) c1) by (by rewrite Hget).
    rewrite Hget. simpl. by rewrite Hstr.
Qed.

(** C5 on the three forms of the claim: a translation stored for "Hello" is
    found for "  hello  " and for "HELLO". *)
Lemma C5_normalised_key_witness :
  let P := ascii_platform in
  let cfg := config 3600000 500 None in
  let c := cacheSet cfg 1000 (trim "Hello") (JStr "Ola") [] in
  (cacheGet 2000 (trim "  hello  ") c).1 = JStr "Ola" /\
  (cacheGet 2000 (trim "HELLO") c).1 = JStr "Ola".
Proof.
  intros P cfg c. split.
  - apply (C5_normalised_key cfg "Hello" "  hello  "); [reflexivity|].
    vm_compute. discriminate.
  - apply (C5_normalised_key cfg "Hello" "HELLO"); [reflexivity|].
    vm_compute. discriminate.
Defined.


(** ** Fallback to the original keywords *)

(** Replies that make the read of the translated text raise, and replies that
    do not. *)
Example translation_throws_samples :
  let P := ascii_platform in
  translation_throws Rejected = true /\
  translation_throws (Resolved 200 JNull) = true /\
  translation_throws (Resolved 200 (JStr "<html>")) = true /\
  translation_throws (Resolved 200 (JObj [("error", JStr "quota")])) = true /\
  translation_throws (Resolved 200 (JObj [("data", JObj [("translations", JArr [])])])) = true /\
  translation_throws (Resolved 200 (JObj [("data", JObj [("translations", JArr [JObj []])])])) = false /\
  translation_throws (Resolved 200 (translation_body (JStr "cachorro"))) = false.
Proof. repeat split. Qed.

(** C1: the code breaks the claim for a malformed reply that can be read
    without an exception.  With a key configured and an empty cache, when the
    provider answers [{ data: { translations: [ {} ] } }] the handler takes
    [undefined] as the keywords, not the source text: it stores [undefined]
    in the cache, where the comment on the cache has a string, and forwards
    it, where the comment on the assignment has the translated or the
    original text. *)
Theorem C1_malformed_reply_not_fallback `{Platform} (cfg : Config) (w : World)
    (query : gmap string JSValue) (raw key : string) (status : Z) :
  query !! "keywords" = Some (JStr raw) ->
  trim raw <> "" ->
  api_key cfg = Some key ->
  translate_post w (trim raw) "pt" key =
    Resolved status (JObj [("data", JObj [("translations", JArr [JObj []])])]) ->
  resolve cfg w (trim raw) [] =
    ({| portugueseKeywords := JUndefined; attempted := true; cacheHit := false;
        raised := false |},
     [(toLowerCase (trim raw),
       {| translated := JUndefined; expiresAt := now_set w + CACHE_TTL_MS cfg |})],
     [TranslateCall (trim raw) "pt" key]) /\
  portugueseKeywords (resolve cfg w (trim raw) []).1.1 <> JStr (trim raw) /\
  forwarded (search cfg w query []).2 = [<["keywords" := JUndefined]> query].
Proof.
  intros Hq Hraw Hkey Hpost.
  assert (resolve cfg w (trim raw) [] =
    ({| portugueseKeywords := JUndefined; attempted := true; cacheHit := false;
        raised := false |},
     [(toLowerCase (trim raw),
       {| translated := JUndefined; expiresAt := now_set w + CACHE_TTL_MS cfg |})],
     [TranslateCall (trim raw) "pt" key])) as Hres.
  { rewrite (resolve_translated cfg w (trim raw) [] key status _ JUndefined
               eq_refl Hkey Hpost eq_refl).
    f_equal. f_equal. unfold cacheSet. simpl. by case_bool_decide. }
  split; [done|]. rewrite Hres. split; [done|].
  rewrite (search_with_keywords cfg w query [] raw Hq Hraw). cbv zeta.
  by rewrite Hres.
Qed.

(** C1 on a request for "gato" with the key "k". *)
Lemma C1_malformed_reply_not_fallback_witness :
  let P := ascii_platform in
  let cfg := config 3600000 500 (Some "k") in
  let reply := JObj [("data", JObj [("translations", JArr [JObj []])])] in
  let w := world 1000 1001 (Resolved 200 reply) (Resolved 200 (JArr [])) in
  resolve cfg w "gato" [] =
    ({| portugueseKeywords := JUndefined; attempted := true; cacheHit := false;
        raised := false |},
     [("gato", {| translated := JUndefined; expiresAt := 3601001 |})],
     [TranslateCall "gato" "pt" "k"]) /\
  portugueseKeywords (resolve cfg w "gato" []).1.1 <> JStr "gato" /\
  forwarded (search cfg w {[ "keywords" := JStr "gato" ]} []).2 =
    [ {[ "keywords" := JUndefined ]} ].
Proof.
  intros P cfg reply w.
  destruct (C1_malformed_reply_not_fallback cfg w {[ "keywords" := JStr "gato" ]}
              "gato" "k" 200) as (Hres & Hne & Hfwd);
    [reflexivity | vm_compute; discriminate | reflexivity | reflexivity |].
  split; [exact Hres|]. split; [exact Hne|]. exact Hfwd.
Defined.

(** ** Requests without usable keywords *)

(** C8: when [keywords] is absent, is not a string, or is a string that is
    empty or that [trim] leaves empty, the handler forwards the query without
    the [keywords] field, calls nothing else, leaves the cache alone and
    relays what the backend answers, with no header of its own. *)
Theorem C8_no_usable_keywords `{Platform} (cfg : Config) (w : World)
    (query : gmap string JSValue) (c : Cache) :
  query !! "keywords" = None \/
  (exists v, query !! "keywords" = Some v /\ forall s, v <> JStr s) \/
  (exists s, query !! "keywords" = Some (JStr s) /\ (s = "" \/ trim s = "")) ->
  let forwardParams := delete "keywords" query in
  forwardParams !! "keywords" = None /\
  (search cfg w query c).1.2 = c /\
  (search cfg w query c).2 = [SearchCall (internalApiUrl cfg) forwardParams] /\
  (search cfg w query c).1.1 =
    match search_get w (internalApiUrl cfg) forwardParams with
    | Resolved status data =>
        {| res_status := status; res_headers := []; res_body := data |}
    | Rejected => internal_error
    end.
Proof.
  intros Hcase forwardParams.
  assert (hasKeywords (query !! "keywords") = false) as Hno.
  { destruct Hcase as [-> | [(v & -> & Hv) | (s & -> & [-> | Hs])]].
    - done.
    - destruct v; try done. by destruct (Hv s).
    - apply hasKeywords_blank, trim_empty_string.
    - by apply hasKeywords_blank. }
  rewrite (search_without_keywords cfg w query c Hno). fold forwardParams.
  split; [apply lookup_delete_eq|]. split; [done|]. split; [done|].
  simpl. by destruct (search_get w (internalApiUrl cfg) forwardParams).
Qed.

(** C8 on a request whose keywords are three spaces. *)
Lemma C8_no_usable_keywords_witness :
  let P := ascii_platform in
  let cfg := config 3600000 500 (Some "k") in
  let w := world 1000 1001 Rejected (Resolved 200 (JArr [])) in
  let query : gmap string JSValue := {[ "keywords" := JStr "   "; "page" := JStr "2" ]} in
  (search cfg w query []).2 =
    [SearchCall "https://tueducaciondigital.site/ads/getads/" {[ "page" := JStr "2" ]}] /\
  (search cfg w query []).1.1 =
    {| res_status := 200; res_headers := []; res_body := JArr [] |}.
Proof.
  intros P cfg w query.
  destruct (C8_no_usable_keywords cfg w query []) as (_ & _ & Hcalls & Hreply).
  { right. right. exists "   ". split; [reflexivity | right; reflexivity]. }
  split; [exact Hcalls | exact Hreply].
Defined.

(** ** What is forwarded, and the diagnostic headers *)



(** C10: the code breaks the claim when [res.set] refuses a header value,
    as it does for a text with a line feed.  When the keywords are usable,
    the forward call is made and answered, and [res.set] refuses the trimmed
    keywords, the reply is the 500 of the outer [catch] and carries two of
    the four headers: the third [res.set] raised. *)
Theorem C10_refused_header_value `{Platform} (cfg : Config) (w : World)
    (query : gmap string JSValue) (c : Cache) (raw : string) (status : Z)
    (data : JSValue) :
  let o := (resolve cfg w (trim raw) c).1.1 in
  let forwardParams := <["keywords" := portugueseKeywords o]> query in
  query !! "keywords" = Some (JStr raw) ->
  trim raw <> "" ->
  raised o = false ->
  search_get w (internalApiUrl cfg) forwardParams = Resolved status data ->
  header_ok (JStr (trim raw)) = false ->
  hasKeywords (query !! "keywords") = true /\
  SearchCall (internalApiUrl cfg) forwardParams ∈ (search cfg w query c).2 /\
  (search cfg w query c).1.1 =
  {| res_status := 500;
     res_headers :=
       [("X-Translate-Attempted", flag (attempted o));
        ("X-Translate-Cached", flag (cacheHit o))];
     res_body := error_body |}.
Proof.
  intros o forwardParams Hq Hraw Hraised Hget Hrefused.
  split; [rewrite Hq; by apply hasKeywords_usable|].
  rewrite (search_with_keywords cfg w query c raw Hq Hraw). cbv zeta.
  fold o. rewrite Hraised. fold forwardParams. simpl.
  split; [apply elem_of_app; right; by apply list_elem_of_singleton|].
  unfold relay. rewrite Hget, set_headers_four. by rewrite Hrefused.
Qed.

(** C10 on the request keywords=a%0Ab (a line feed inside the keywords),
    without a key and with a backend that answers 200. *)
Lemma C10_refused_header_value_witness :
  let P := ascii_platform in
  let cfg := config 3600000 500 None in
  let w := world 1000 1001 Rejected (Resolved 200 (JArr [])) in
  let keywords := String "a"%char (String "010"%char "b") in
  let query : gmap string JSValue := {[ "keywords" := JStr keywords ]} in
  hasKeywords (query !! "keywords") = true /\
  SearchCall (internalApiUrl cfg) query ∈ (search cfg w query []).2 /\
  (search cfg w query []).1.1 =
  {| res_status := 500;
     res_headers :=
       [("X-Translate-Attempted", JStr "0"); ("X-Translate-Cached", JStr "0")];
     res_body := error_body |}.
Proof.
  intros P cfg w keywords query.
  destruct (C10_refused_header_value cfg w query [] keywords 200 (JArr []))
    as (Hhas & Hcall & Hreply);
    [reflexivity | vm_compute; discriminate | reflexivity | reflexivity
    | reflexivity |].
  split; [exact Hhas|]. split; [exact Hcall | exact Hreply].
Defined.


(** * Further properties *)

(** ** More on the cache *)

Section cache_more.
Context `{Platform} (cfg : Config).
Implicit Types (c m : Cache) (k : string) (e : CacheEntry).

Lemma elem_of_keys_map_delete m k x : x ∈ keys (map_delete k m) <-> x ∈ keys m /\ x <> k.
Proof.
  rewrite keys_map_delete, list_elem_of_filter. split; intros [? ?]; by split.
Qed.

Lemma elem_of_keys_map_set m k e x : x ∈ keys (map_set k e m) <-> x ∈ keys m \/ x = k.
Proof.
  destruct (decide (k ∈ keys m)) as [Hin|Hn].
  - rewrite keys_map_set_resident by done. split; [by left | by intros [?| ->]].
  - rewrite map_set_absent by done. unfold keys. rewrite fmap_app, elem_of_app.
    simpl. by rewrite list_elem_of_singleton.
Qed.

Lemma cacheGet_other (now : Z) (original : string) (c : Cache) (k : string) :
  k <> toLowerCase original -> map_get k (cacheGet now original c).2 = map_get k c.
Proof.
  intros Hk. unfold cacheGet. destruct (map_get _ c) as [e|]; [|done].
  case_bool_decide; [|done]. by apply map_get_delete_ne.
Qed.

Lemma cacheGet_keys (now : Z) (original : string) (c : Cache) :
  keys (cacheGet now original c).2 `sublist_of` keys c.
Proof.
  unfold cacheGet. destruct (map_get _ c) as [e|]; [|done].
  case_bool_decide; [|done]. simpl. rewrite keys_map_delete. apply sublist_filter.
Qed.

(** X1: a get touches the key it looks up and no other: every other key keeps
    its entry, and the keys left are the old ones in the old order, possibly
    without the key looked up. *)
Theorem cacheGet_frame (now : Z) (original : string) (c : Cache) :
  let c' := (cacheGet now original c).2 in
  (forall k, k <> toLowerCase original -> map_get k c' = map_get k c) /\
  keys c' `sublist_of` keys c /\
  (forall k, k ∈ keys c -> k <> toLowerCase original -> k ∈ keys c').
Proof.
  split; [|split].
  - intros k Hk. by apply cacheGet_other.
  - apply cacheGet_keys.
  - intros k Hin Hk. unfold cacheGet. destruct (map_get _ c) as [e|]; [|done].
    case_bool_decide; [|done]. by apply elem_of_keys_map_delete.
Qed.

(** X2: a second get of the same text at the same instant returns what the
    first returned and leaves the cache as the first left it. *)
Theorem cacheGet_twice (now : Z) (original : string) (c : Cache) :
  cacheGet now original (cacheGet now original c).2 =
  ((cacheGet now original c).1, (cacheGet now original c).2).
Proof.
  unfold cacheGet. destruct (map_get _ c) as [e|] eqn:Hget.
  - case_bool_decide as Hexp; simpl.
    + by rewrite map_get_delete_eq.
    + rewrite Hget. by rewrite bool_decide_eq_false_2.
  - simpl. by rewrite Hget.
Qed.

Lemma cacheSet_first_evicted (now : Z) (original : string) (v : JSValue) (c : Cache)
    (k : string) :
  k <> toLowerCase original ->
  map_size c >= MAX_CACHE_ENTRIES cfg -> map_first_key c = Some k ->
  map_get k (cacheSet cfg now original v c) = None.
Proof.
  intros Hk Hfull Hfirst. unfold cacheSet. rewrite map_get_set_ne by done.
  rewrite bool_decide_eq_true_2, Hfirst by done. apply map_get_delete_eq.
Qed.

Lemma cacheSet_other_kept (now : Z) (original : string) (v : JSValue) (c : Cache)
    (k : string) :
  k <> toLowerCase original ->
  ~ (map_size c >= MAX_CACHE_ENTRIES cfg /\ map_first_key c = Some k) ->
  map_get k (cacheSet cfg now original v c) = map_get k c.
Proof.
  intros Hk Hnot. unfold cacheSet. rewrite map_get_set_ne by done.
  case_bool_decide as Hfull; [|done].
  destruct (map_first_key c) as [k0|] eqn:Hfirst; [|done].
  apply map_get_delete_ne. intros ->. by apply Hnot.
Qed.

(** X3: what a put does to the other keys, on any map: the first key is
    removed when the map is at or above capacity, and every other key keeps
    its entry. *)
Theorem cacheSet_frame (now : Z) (original : string) (v : JSValue) (c : Cache)
    (k : string) :
  k <> toLowerCase original ->
  map_get k (cacheSet cfg now original v c) =
  if bool_decide (map_size c >= MAX_CACHE_ENTRIES cfg /\ map_first_key c = Some k)
  then None else map_get k c.
Proof.
  intros Hk. case_bool_decide as Hcase.
  - destruct Hcase as [Hfull Hfirst]. by apply cacheSet_first_evicted.
  - by apply cacheSet_other_kept.
Qed.

End cache_more.

Lemma cacheSet_frame_witness :
  let P := ascii_platform in
  let cfg2 := config 3600000 2 None in
  let c := run cfg2 [OpSet 1 "a" (JStr "x"); OpSet 2 "b" (JStr "y")] in
  map_get "a" (cacheSet cfg2 3 "c" (JStr "z") c) = None /\
  map_get "b" (cacheSet cfg2 3 "c" (JStr "z") c) =
    Some {| translated := JStr "y"; expiresAt := 3600002 |}.
Proof.
  intros P cfg2 c. split.
  - refine (cacheSet_frame cfg2 3 "c" (JStr "z") c "a" _). vm_compute. discriminate.
  - refine (cacheSet_frame cfg2 3 "c" (JStr "z") c "b" _). vm_compute. discriminate.
Defined.

Section cache_edge.
Context `{Platform} (cfg : Config).

Lemma run_small :
  MAX_CACHE_ENTRIES cfg <= 0 -> forall ops, (length (run cfg ops) <= 1)%nat.
Proof.
  intros Hmax ops. induction ops as [|op ops IH] using rev_ind; [simpl; lia|].
  rewrite run_snoc. destruct op as [now o|now o v]; simpl.
  - pose proof (cacheGet_size now o (run cfg ops)). unfold map_size in *. lia.
  - unfold cacheSet. rewrite bool_decide_eq_true_2 by (unfold map_size; lia).
    destruct (run cfg ops) as [|[k0 e0] [|? ?]]; simpl in *; [done| |lia].
    by rewrite decide_True.
Qed.

(** X4: with a capacity that is not positive the cache never holds more than
    one entry: after any history, a put leaves the entry just put and nothing
    else. *)
Theorem nonpositive_capacity :
  MAX_CACHE_ENTRIES cfg <= 0 ->
  (forall ops, map_size (run cfg ops) <= 1) /\
  (forall ops now original v,
     run cfg (ops ++ [OpSet now original v]) =
     [(toLowerCase original,
       {| translated := v; expiresAt := now + CACHE_TTL_MS cfg |})]).
Proof.
  intros Hmax. split.
  - intros ops. pose proof (run_small Hmax ops). unfold map_size. lia.
  - intros ops now original v. rewrite run_snoc. simpl.
    pose proof (run_small Hmax ops) as Hlen. unfold cacheSet.
    rewrite bool_decide_eq_true_2 by (unfold map_size; lia).
    destruct (run cfg ops) as [|[k0 e0] [|? ?]]; simpl in *; [done| |lia].
    by rewrite decide_True.
Qed.

Lemma keys_put_set now original v (c : Cache) (ops : list CacheOp) :
  (forall k, k ∈ keys c -> exists op, op ∈ ops /\ is_set op = true /\ k = op_key op) ->
  forall k, k ∈ keys (cacheSet cfg now original v c) ->
    exists op, op ∈ ops ++ [OpSet now original v] /\ is_set op = true /\ k = op_key op.
Proof.
  intros Hc k Hin. unfold cacheSet in Hin.
  apply elem_of_keys_map_set in Hin as [Hin| ->].
  - destruct (Hc k) as (op & Hop & Hset & ->).
    + case_bool_decide; [|done].
      destruct (map_first_key c); [|done].
      by apply elem_of_keys_map_delete in Hin as [? _].
    + exists op. split; [|done]. apply elem_of_app. by left.
  - exists (OpSet now original v). split; [|done].
    apply elem_of_app. right. apply list_elem_of_here.
Qed.

(** X5: every key of the cache is the lower-cased form of a text that was
    put, whatever was put and looked up since. *)
Theorem run_keys_folded (ops : list CacheOp) (k : string) :
  k ∈ keys (run cfg ops) ->
  exists now original v,
    OpSet now original v ∈ ops /\ k = toLowerCase original.
Proof.
  assert (forall k, k ∈ keys (run cfg ops) ->
            exists op, op ∈ ops /\ is_set op = true /\ k = op_key op) as Hall.
  { induction ops as [|op ops IH] using rev_ind.
    - by intros k' ?%elem_of_nil.
    - rewrite run_snoc. destruct op as [now o|now o v]; simpl.
      + intros k' Hin. destruct (IH k') as (op & Hop & Hset & ->).
        * eapply elem_of_sublist; [done|]. apply cacheGet_keys.
        * exists op. split; [|done]. apply elem_of_app. by left.
      + by apply keys_put_set. }
  intros Hin. destruct (Hall k Hin) as ([now o|now o v] & Hop & Hset & ->); [done|].
  by exists now, o, v.
Qed.

(** X6: a read refreshes nothing.  A get that hits leaves the cache as it is:
    the entry still expires at the time set by the put, and it keeps its
    place in the eviction order, so when it is first in a full map the next
    put of another key removes it. *)
Theorem reads_do_not_refresh (c : Cache) (now : Z) (original : string) (e : CacheEntry) :
  map_get (toLowerCase original) c = Some e ->
  now <= expiresAt e ->
  let c1 := (cacheGet now original c).2 in
  c1 = c /\
  (forall t, t > expiresAt e ->
     cacheGet t original c1 = (JNull, map_delete (toLowerCase original) c)) /\
  (forall now' original' v',
     toLowerCase original' <> toLowerCase original ->
     map_size c >= MAX_CACHE_ENTRIES cfg ->
     map_first_key c = Some (toLowerCase original) ->
     map_get (toLowerCase original) (cacheSet cfg now' original' v' c1) = None).
Proof.
  intros Hget Hlive c1. subst c1. rewrite (cacheGet_live _ _ _ _ Hget Hlive). simpl.
  split; [done|]. split.
  - intros t Ht. apply (cacheGet_expired _ _ _ _ Hget). lia.
  - intros now' original' v' Hne Hfull Hfirst.
    by apply cacheSet_first_evicted.
Qed.
End cache_edge.

Lemma nonpositive_capacity_witness :
  let P := ascii_platform in
  run (config 3600000 (-5) None)
    ([OpSet 1 "a" (JStr "x"); OpGet 2 "a"; OpSet 3 "b" (JStr "y")] ++
     [OpSet 4 "C" (JStr "z")]) =
  [("c", {| translated := JStr "z"; expiresAt := 3600004 |})].
Proof.
  intros P.
  refine (proj2 (nonpositive_capacity (config 3600000 (-5) None) _)
            [OpSet 1 "a" (JStr "x"); OpGet 2 "a"; OpSet 3 "b" (JStr "y")]
            4 "C" (JStr "z")).
  vm_compute. discriminate.
Defined.

Lemma run_keys_folded_witness :
  let P := ascii_platform in
  exists now original v,
    OpSet now original v ∈ [OpSet 1 "PeRRo" (JStr "x"); OpGet 2 "gato"] /\
    "perro" = toLowerCase original.
Proof.
  intros P.
  apply (run_keys_folded (config 3600000 500 None)
           [OpSet 1 "PeRRo" (JStr "x"); OpGet 2 "gato"] "perro").
  vm_compute. apply list_elem_of_here.
Defined.

Lemma reads_do_not_refresh_witness :
  let P := ascii_platform in
  let cfg := config 3600000 2 None in
  let c := run cfg [OpSet 1 "a" (JStr "x"); OpSet 2 "b" (JStr "y")] in
  map_get "a" (cacheSet cfg 200 "c" (JStr "z") (cacheGet 100 "A" c).2) = None.
Proof.
  intros P cfg c.
  refine (proj2 (proj2 (reads_do_not_refresh cfg c 100 "A"
            {| translated := JStr "x"; expiresAt := 3600001 |} _ _)) 200 "c" (JStr "z") _ _ _);
    [reflexivity | vm_compute; discriminate | vm_compute; discriminate
    | vm_compute; discriminate | reflexivity].
Defined.


(** ** More on the handler of [GET /search] *)

Section handler_more.
Context `{Platform} (cfg : Config).
Implicit Types (w : World) (c : Cache) (query : gmap string JSValue).

Lemma search_cache w query c :
  (search cfg w query c).1.2 = c \/
  exists raw,
    query !! "keywords" = Some (JStr raw) /\
    trim raw <> "" /\
    (search cfg w query c).1.2 = (resolve cfg w (trim raw) c).1.2.
Proof.
  destruct (hasKeywords (query !! "keywords")) eqn:Hhas.
  - destruct (hasKeywords_true query Hhas) as (raw & Hq & Hraw).
    right. exists raw. split; [done|]. split; [done|].
    rewrite (search_with_keywords cfg w query c raw Hq Hraw). cbv zeta.
    by destruct (raised _).
  - left. by rewrite (search_without_keywords cfg w query c Hhas).
Qed.

Lemma serve_snoc reqs w query :
  serve cfg (reqs ++ [(w, query)]) = (search cfg w query (serve cfg reqs)).1.2.
Proof. unfold serve. by rewrite foldl_app. Qed.

Lemma search_NoDup w query c :
  NoDup (keys c) -> NoDup (keys (search cfg w query c).1.2).
Proof.
  intros Hnd. destruct (search_cache w query c) as [-> | (raw & _ & _ & ->)]; [done|].
  destruct (resolve_cache cfg w (trim raw) c) as [-> | [text ->]].
  - by apply cacheGet_NoDup.
  - by apply cacheSet_NoDup, cacheGet_NoDup.
Qed.

Lemma cacheSet_bounded now original v c :
  map_size c <= Z.max 1 (MAX_CACHE_ENTRIES cfg) ->
  map_size (cacheSet cfg now original v c) <= Z.max 1 (MAX_CACHE_ENTRIES cfg).
Proof.
  intros Hle. unfold cacheSet, map_size in *.
  set (e := {| translated := v; expiresAt := _ |}).
  case_bool_decide as Hfull.
  - destruct c as [|[k0 e0] rest]; [simpl; lia|].
    cbn [map_first_key map_delete]. rewrite decide_True by done.
    pose proof (length_map_set (map_delete k0 rest) (toLowerCase original) e).
    pose proof (length_map_delete rest k0). simpl in *. lia.
  - pose proof (length_map_set c (toLowerCase original) e). lia.
Qed.

Lemma search_bounded w query c :
  map_size c <= Z.max 1 (MAX_CACHE_ENTRIES cfg) ->
  map_size (search cfg w query c).1.2 <= Z.max 1 (MAX_CACHE_ENTRIES cfg).
Proof.
  intros Hle.
  destruct (search_cache w query c) as [-> | (raw & _ & _ & ->)]; [done|].
  pose proof (cacheGet_size (now_get w) (trim raw) c).
  destruct (resolve_cache cfg w (trim raw) c) as [-> | [text ->]]; [lia|].
  apply cacheSet_bounded. lia.
Qed.

(** X7: whatever requests are served, whatever the provider and the backend
    answer and whatever the configured capacity, the cache never holds a key
    twice and never holds more than [MAX_CACHE_ENTRIES] entries, or more than
    one entry when that number is not positive. *)
Theorem serve_bounded (reqs : list (World * gmap string JSValue)) :
  map_size (serve cfg reqs) <= Z.max 1 (MAX_CACHE_ENTRIES cfg) /\
  NoDup (keys (serve cfg reqs)).
Proof.
  induction reqs as [|[w query] reqs [IHs IHn]] using rev_ind.
  - split; [unfold serve, map_size; simpl; lia | apply NoDup_nil_2].
  - rewrite serve_snoc. split; [by apply search_bounded | by apply search_NoDup].
Qed.

(** X8: every key the handler leaves in the cache is the keywords of a request
    it served, trimmed and then lower-cased, as the comment on the cache
    says; the trimmed keywords were not empty. *)
Theorem serve_keys (reqs : list (World * gmap string JSValue)) (k : string) :
  k ∈ keys (serve cfg reqs) ->
  exists w query raw,
    (w, query) ∈ reqs /\
    query !! "keywords" = Some (JStr raw) /\
    trim raw <> "" /\
    k = toLowerCase (trim raw).
Proof.
  revert k. induction reqs as [|[w query] reqs IH] using rev_ind; intros k.
  - by intros ?%elem_of_nil.
  - rewrite serve_snoc.
    assert (forall k', k' ∈ keys (serve cfg reqs) ->
              exists w' query' raw,
                (w', query') ∈ reqs ++ [(w, query)] /\
                query' !! "keywords" = Some (JStr raw) /\
                trim raw <> "" /\ k' = toLowerCase (trim raw)) as IH0.
    { intros k' Hin. destruct (IH k' Hin) as (w' & query' & raw & Hreq & Hrest).
      exists w', query', raw. split; [|done]. apply elem_of_app. by left. }
    destruct (search_cache w query (serve cfg reqs)) as [-> | (raw & Hq & Hraw & ->)];
      [apply IH0|].
    assert (forall k', k' ∈ keys (cacheGet (now_get w) (trim raw) (serve cfg reqs)).2 ->
              exists w' query' raw,
                (w', query') ∈ reqs ++ [(w, query)] /\
                query' !! "keywords" = Some (JStr raw) /\
                trim raw <> "" /\ k' = toLowerCase (trim raw)) as IH1.
    { intros k' Hin. apply IH0. eapply elem_of_sublist; [done|]. apply cacheGet_keys. }
    destruct (resolve_cache cfg w (trim raw) (serve cfg reqs)) as [-> | [text ->]];
      [apply IH1|].
    unfold cacheSet. intros [Hin| ->]%elem_of_keys_map_set.
    + apply IH1. case_bool_decide; [|done].
      destruct (map_first_key _); [|done]. by apply elem_of_keys_map_delete in Hin as [? _].
    + exists w, query, raw. split; [|done]. apply elem_of_app. right.
      apply list_elem_of_here.
Qed.
End handler_more.

Lemma serve_keys_witness :
  let P := ascii_platform in
  let cfg := config 3600000 500 (Some "k") in
  let w := world 1000 1001 (Resolved 200 (translation_body (JStr "cachorro")))
             (Resolved 200 (JArr [])) in
  exists w' query raw,
    (w', query) ∈ [(w, ({[ "keywords" := JStr "  PERRO " ]} : gmap string JSValue))] /\
    query !! "keywords" = Some (JStr raw) /\
    trim raw <> "" /\
    "perro" = toLowerCase (trim raw).
Proof.
  intros P cfg w.
  apply (serve_keys cfg [(w, {[ "keywords" := JStr "  PERRO " ]})] "perro").
  vm_compute. apply list_elem_of_here.
Defined.

Section handler_calls.
Context `{Platform} (cfg : Config) (w : World).
Implicit Types (c : Cache) (query : gmap string JSValue).

(** X9: what the handler derives is consistent: [attempted] and [cacheHit] are
    never both set; [attempted] is set exactly when the provider was called;
    [cacheHit] is set exactly when the lookup returned a truthy value, and
    then that value is the text used; with neither set, the text used is the
    source text and no key is configured. *)
Theorem resolve_outcome (spanishKeywords : string) (c : Cache) :
  let r := resolve cfg w spanishKeywords c in
  let o := r.1.1 in
  let cached := cacheGet (now_get w) spanishKeywords c in
  attempted o && cacheHit o = false /\
  r.2 = (if attempted o
         then [TranslateCall spanishKeywords "pt" (default "" (api_key cfg))]
         else []) /\
  cacheHit o = truthy cached.1 /\
  (if cacheHit o then portugueseKeywords o = cached.1 /\ r.1.2 = cached.2
   else if attempted o then is_Some (api_key cfg)
   else portugueseKeywords o = JStr spanishKeywords /\ api_key cfg = None /\
        r.1.2 = cached.2).
Proof.
  unfold resolve, js_or. destruct (cacheGet _ _ c) as [cached c1]. simpl.
  destruct (truthy cached); simpl; [done|].
  destruct (api_key cfg) as [key|]; simpl; [|done].
  destruct (translate_post _ _ _ _) as [|status body]; simpl; [by eauto|].
  destruct (translatedText_of body); simpl; by eauto.
Qed.

(** X10: a request makes at most one call to the provider and at most one
    forward call, in this order.  The provider is called only for keywords
    that [trim] does not leave empty and that miss the cache while a key is
    configured; it is called with the trimmed keywords, the target [pt] and
    that key.  The forward call is made unless the log line of the cache-hit
    branch raises, in which case nothing is called. *)
Theorem search_calls (query : gmap string JSValue) (c : Cache) :
  let spanishKeywords := trim (string_of (query !! "keywords")) in
  let calls := (search cfg w query c).2 in
  (calls = [] /\
     (exists raw, query !! "keywords" = Some (JStr raw) /\ trim raw <> "") /\
     truthy (cacheGet (now_get w) spanishKeywords c).1 = true /\
     stringifies (cacheGet (now_get w) spanishKeywords c).1 = false) \/
  exists forwardParams,
    calls = [SearchCall (internalApiUrl cfg) forwardParams] \/
    exists key,
      calls =
        [TranslateCall spanishKeywords "pt" key;
         SearchCall (internalApiUrl cfg) forwardParams] /\
      api_key cfg = Some key /\ key <> "" /\
      (exists raw, query !! "keywords" = Some (JStr raw) /\ trim raw <> "") /\
      truthy (cacheGet (now_get w) spanishKeywords c).1 = false.
Proof.
  destruct (hasKeywords (query !! "keywords")) eqn:Hhas.
  - destruct (hasKeywords_true query Hhas) as (raw & Hq & Hraw). rewrite Hq in *.
    rewrite (search_with_keywords cfg w query c raw Hq Hraw). cbv zeta. simpl string_of.
    pose proof (resolve_raised cfg w (trim raw) c) as Hraised.
    destruct (raised _) eqn:Hr; simpl.
    + left. symmetry in Hraised. apply andb_true_iff in Hraised as [Ht Hs].
      apply negb_true_iff in Hs.
      destruct (resolve_calls cfg w (trim raw) c) as [-> | (key & _ & Hmiss & _)];
        [|congruence].
      split; [done|]. split; [by exists raw | done].
    + right. eexists.
      destruct (resolve_calls cfg w (trim raw) c) as [-> | (key & Hkey & Hmiss & ->)];
        [by left | right].
      exists key. repeat split; try done.
      * by apply (api_key_not_empty cfg).
      * by exists raw.
  - rewrite (search_without_keywords cfg w query c Hhas). right. eexists. by left.
Qed.

(** Whether [res.set] accepts the two header values that depend on the
    request. *)
Lemma search_reply_usable (query : gmap string JSValue) (c : Cache) (raw : string) :
  query !! "keywords" = Some (JStr raw) ->
  trim raw <> "" ->
  let o := (resolve cfg w (trim raw) c).1.1 in
  let forwardParams := <["keywords" := portugueseKeywords o]> query in
  (search cfg w query c).1.1 =
  if raised o then internal_error
  else
    match search_get w (internalApiUrl cfg) forwardParams with
    | Rejected => internal_error
    | Resolved status data =>
        if header_ok (JStr (trim raw)) then
          if header_ok (portugueseKeywords o) then
            {| res_status := status;
               res_headers :=
                 [("X-Translate-Attempted", flag (attempted o));
                  ("X-Translate-Cached", flag (cacheHit o));
                  ("X-Source-Keywords", JStr (trim raw));
                  ("X-Translated-Keywords", portugueseKeywords o)];
               res_body := data |}
          else
            {| res_status := 500;
               res_headers :=
                 [("X-Translate-Attempted", flag (attempted o));
                  ("X-Translate-Cached", flag (cacheHit o));
                  ("X-Source-Keywords", JStr (trim raw))];
               res_body := error_body |}
        else
          {| res_status := 500;
             res_headers :=
               [("X-Translate-Attempted", flag (attempted o));
                ("X-Translate-Cached", flag (cacheHit o))];
             res_body := error_body |}
    end.
Proof.
  intros Hq Hraw. rewrite (search_with_keywords cfg w query c raw Hq Hraw). cbv zeta.
  destruct (raised _); [done|]. simpl.
  destruct (search_get _ _ _); [done|]. unfold relay. rewrite set_headers_four.
  destruct (header_ok (JStr (trim raw))); [|done].
  by destruct (header_ok (portugueseKeywords _)).
Qed.

Lemma search_reply_plain (query : gmap string JSValue) (c : Cache) :
  hasKeywords (query !! "keywords") = false ->
  (search cfg w query c).1.1 =
  match search_get w (internalApiUrl cfg) (delete "keywords" query) with
  | Resolved status data =>
      {| res_status := status; res_headers := []; res_body := data |}
  | Rejected => internal_error
  end.
Proof.
  intros Hno. rewrite (search_without_keywords cfg w query c Hno). simpl.
  by destruct (search_get _ _ _).
Qed.

Lemma hasKeywords_false (query : gmap string JSValue) :
  match query !! "keywords" with
  | Some (JStr raw) => trim raw = ""
  | _ => True
  end -> hasKeywords (query !! "keywords") = false.
Proof.
  destruct (query !! "keywords") as [[]|]; try done. apply hasKeywords_blank.
Qed.

(** X11: when the forward call is answered, the status and the body of the
    reply are those of the backend, whatever happened to the translation,
    unless [res.set] refuses the trimmed keywords or the resolved text as a
    header value: then the reply is the fixed 500.  It is the fixed 500 too
    when the forward call fails and when it is not made. *)
Theorem search_relays (query : gmap string JSValue) (c : Cache) :
  let r := (search cfg w query c).1.1 in
  let accepted :=
    match query !! "keywords" with
    | Some (JStr raw) =>
        if decide (trim raw = "") then true
        else header_ok (JStr (trim raw)) &&
             header_ok (portugueseKeywords (resolve cfg w (trim raw) c).1.1)
    | _ => true
    end in
  match forwarded (search cfg w query c).2 with
  | [forwardParams] =>
      match search_get w (internalApiUrl cfg) forwardParams with
      | Resolved status data =>
          if accepted then res_status r = status /\ res_body r = data
          else res_status r = 500 /\ res_body r = error_body
      | Rejected => r = internal_error
      end
  | _ => r = internal_error
  end.
Proof.
  cbv zeta. destruct (query !! "keywords") as [v|] eqn:Hq.
  2:{ rewrite search_reply_plain, search_without_keywords by (by rewrite Hq).
      simpl. by destruct (search_get _ _ _). }
  destruct v as [| | | |raw| |];
    try (rewrite search_reply_plain, search_without_keywords by (by rewrite Hq);
         simpl; by destruct (search_get _ _ _)).
  destruct (decide (trim raw = "")) as [Hraw|Hraw].
  { rewrite search_reply_plain, search_without_keywords
      by (rewrite Hq; by apply hasKeywords_blank).
    simpl. by destruct (search_get _ _ _). }
  rewrite (search_reply_usable query c raw Hq Hraw).
  rewrite (search_with_keywords cfg w query c raw Hq Hraw). cbv zeta.
  destruct (raised _); simpl; [by rewrite forwarded_resolve|].
  unfold forwarded. rewrite omap_app. fold (forwarded (resolve cfg w (trim raw) c).2).
  rewrite forwarded_resolve. simpl.
  destruct (search_get _ _ _); [done|].
  destruct (header_ok (JStr (trim raw))); [|done].
  by destruct (header_ok (portugueseKeywords _)).
Qed.

(** X12: a translation obtained before the forward call fails stays in the
    cache: the reply is the fixed 500, and the entry for the keywords holds
    the translated text with a fresh expiry. *)
Theorem failed_forward_keeps_translation (query : gmap string JSValue) (c : Cache)
    (raw key : string) (status : Z) (body text : JSValue) :
  query !! "keywords" = Some (JStr raw) ->
  trim raw <> "" ->
  truthy (cacheGet (now_get w) (trim raw) c).1 = false ->
  api_key cfg = Some key ->
  translate_post w (trim raw) "pt" key = Resolved status body ->
  translatedText_of body = Some text ->
  (forall url params, search_get w url params = Rejected) ->
  (search cfg w query c).1.1 = internal_error /\
  map_get (toLowerCase (trim raw)) (search cfg w query c).1.2 =
    Some {| translated := text; expiresAt := now_set w + CACHE_TTL_MS cfg |}.
Proof.
  intros Hq Hraw Hmiss Hkey Hpost Htext Hfail.
  rewrite (search_with_keywords cfg w query c raw Hq Hraw). cbv zeta.
  rewrite (resolve_translated cfg w _ c _ _ _ _ Hmiss Hkey Hpost Htext). simpl.
  rewrite Hfail. split; [done|]. apply cacheSet_stored.
Qed.

(** X13: a request leaves the entries of all keys other than its own as they
    were, except that it may evict one. *)
Theorem search_cache_frame (query : gmap string JSValue) (c : Cache) (k : string) :
  k <> toLowerCase (trim (string_of (query !! "keywords"))) ->
  map_get k (search cfg w query c).1.2 = map_get k c \/
  map_get k (search cfg w query c).1.2 = None.
Proof.
  intros Hk. destruct (search_cache cfg w query c) as [-> | (raw & Hq & _ & ->)]; [by left|].
  rewrite Hq in Hk. simpl in Hk.
  pose proof (cacheGet_other (now_get w) (trim raw) c k Hk) as Hget.
  destruct (resolve_cache cfg w (trim raw) c) as [-> | [text ->]]; [by left|].
  set (c1 := (cacheGet (now_get w) (trim raw) c).2) in *.
  destruct (decide (map_size c1 >= MAX_CACHE_ENTRIES cfg /\ map_first_key c1 = Some k))
    as [[Hfull Hfirst]|Hnot].
  - right. by apply cacheSet_first_evicted.
  - left. by rewrite cacheSet_other_kept.
Qed.

(** X14: the [X-Source-Keywords] header, when set, carries the keywords of
    the request trimmed, which are then not empty and a value that [res.set]
    accepts. *)
Theorem source_header_trimmed (query : gmap string JSValue) (c : Cache) (v : JSValue) :
  ("X-Source-Keywords", v) ∈ res_headers (search cfg w query c).1.1 ->
  exists raw,
    query !! "keywords" = Some (JStr raw) /\
    trim raw <> "" /\ v = JStr (trim raw) /\ header_ok v = true.
Proof.
  destruct (hasKeywords (query !! "keywords")) eqn:Hhas.
  - destruct (hasKeywords_true query Hhas) as (raw & Hq & Hraw).
    rewrite (search_reply_usable query c raw Hq Hraw). cbv zeta.
    intros Hin. exists raw. split; [done|]. split; [done|].
    destruct (raised _); [by apply elem_of_nil in Hin|].
    destruct (search_get _ _ _); [by apply elem_of_nil in Hin|].
    destruct (header_ok (JStr (trim raw))) eqn:Hsrc.
    + assert (v = JStr (trim raw)) as ->; [|done].
      destruct (header_ok (portugueseKeywords _)); simpl in Hin;
        repeat (apply elem_of_cons in Hin as [[=]|Hin]; try done);
        by apply elem_of_nil in Hin.
    + simpl in Hin. repeat (apply elem_of_cons in Hin as [[=]|Hin]; try done).
      by apply elem_of_nil in Hin.
  - rewrite (search_reply_plain query c Hhas).
    intros Hin. destruct (search_get _ _ _); simpl in Hin; by apply elem_of_nil in Hin.
Qed.

(** X21: on a cache miss, without a key (unset or empty) the handler keeps the
    source text, with [cacheHit = false] and [attempted = false], and calls
    no provider; with a key, when the translation raises (the call is
    rejected, or reading [data.translations[0].translatedText] off the reply
    raises) the handler keeps the source text, with [cacheHit = false] and
    [attempted = true].  In both cases the cache is what the lookup left and
    the request goes on to the forward call, with the source text in the
    [keywords] field. *)
Theorem fallback_on_failure (spanishKeywords : string) (c : Cache) :
  truthy (cacheGet (now_get w) spanishKeywords c).1 = false ->
  let c1 := (cacheGet (now_get w) spanishKeywords c).2 in
  let forward query :=
    SearchCall (internalApiUrl cfg) (<["keywords" := JStr spanishKeywords]> query) in
  let request query raw :=
    query !! "keywords" = Some (JStr raw) /\
    trim raw = spanishKeywords /\ trim raw <> "" in
  (api_key cfg = None ->
     resolve cfg w spanishKeywords c =
       ({| portugueseKeywords := JStr spanishKeywords;
           attempted := false; cacheHit := false; raised := false |}, c1, []) /\
     forall query raw, request query raw ->
       (search cfg w query c).2 = [forward query]) /\
  (forall key,
     api_key cfg = Some key ->
     translation_throws (translate_post w spanishKeywords "pt" key) = true ->
     resolve cfg w spanishKeywords c =
       ({| portugueseKeywords := JStr spanishKeywords;
           attempted := true; cacheHit := false; raised := false |}, c1,
        [TranslateCall spanishKeywords "pt" key]) /\
     forall query raw, request query raw ->
       (search cfg w query c).2 =
       [TranslateCall spanishKeywords "pt" key; forward query]).
Proof.
  intros Hmiss c1 forward request. split.
  - intros Hkey. pose proof (resolve_no_key cfg w _ c Hmiss Hkey) as Hres.
    split; [done|]. intros query raw (Hq & <- & Hraw).
    rewrite (search_with_keywords cfg w query c raw Hq Hraw). cbv zeta.
    by rewrite Hres.
  - intros key Hkey Hthrows.
    pose proof (resolve_throws cfg w _ c key Hmiss Hkey Hthrows) as Hres.
    split; [done|]. intros query raw (Hq & <- & Hraw).
    rewrite (search_with_keywords cfg w query c raw Hq Hraw). cbv zeta.
    by rewrite Hres.
Qed.

(** X22: the headers on the reply.  A request whose keywords are absent, not a
    string or left empty by [trim] gets none; so does one whose forward call
    fails or is not made.  Otherwise the four [res.set] calls run in order and
    stop at the first value that is refused: all four headers when the
    trimmed keywords and the resolved text are accepted, three when only the
    resolved text is refused, two when the trimmed keywords are refused. *)
Theorem diagnostic_headers_set (query : gmap string JSValue) (c : Cache) :
  let r := (search cfg w query c).1.1 in
  match query !! "keywords" with
  | Some (JStr raw) =>
      if decide (trim raw = "") then res_headers r = []
      else
        let o := (resolve cfg w (trim raw) c).1.1 in
        let forwardParams := <["keywords" := portugueseKeywords o]> query in
        if raised o then res_headers r = []
        else if resolved (search_get w (internalApiUrl cfg) forwardParams) then
          res_headers r =
          [("X-Translate-Attempted", flag (attempted o));
           ("X-Translate-Cached", flag (cacheHit o))] ++
          (if header_ok (JStr (trim raw)) then
             ("X-Source-Keywords", JStr (trim raw)) ::
             (if header_ok (portugueseKeywords o)
              then [("X-Translated-Keywords", portugueseKeywords o)] else [])
           else [])
        else res_headers r = []
  | _ => res_headers r = []
  end.
Proof.
  cbv zeta. destruct (query !! "keywords") as [v|] eqn:Hq.
  2:{ rewrite search_reply_plain by (by rewrite Hq). by destruct (search_get _ _ _). }
  destruct v as [| | | |raw| |];
    try (rewrite search_reply_plain by (by rewrite Hq); by destruct (search_get _ _ _)).
  destruct (decide (trim raw = "")) as [Hraw|Hraw].
  { rewrite search_reply_plain by (rewrite Hq; by apply hasKeywords_blank).
    by destruct (search_get _ _ _). }
  rewrite (search_reply_usable query c raw Hq Hraw). cbv zeta.
  destruct (raised _); [done|].
  destruct (search_get _ _ _); [done|]. simpl.
  destruct (header_ok (JStr (trim raw))); [|done].
  by destruct (header_ok (portugueseKeywords _)).
Qed.
End handler_calls.

Lemma failed_forward_keeps_translation_witness :
  let P := ascii_platform in
  let cfg := config 3600000 500 (Some "k") in
  let w := world 1000 1001 (Resolved 200 (translation_body (JStr "cachorro"))) Rejected in
  (search cfg w {[ "keywords" := JStr " Perro " ]} []).1.1 = internal_error /\
  map_get "perro" (search cfg w {[ "keywords" := JStr " Perro " ]} []).1.2 =
    Some {| translated := JStr "cachorro"; expiresAt := 3601001 |}.
Proof.
  intros P cfg w.
  refine (failed_forward_keeps_translation cfg w {[ "keywords" := JStr " Perro " ]} []
            " Perro " "k" 200 (translation_body (JStr "cachorro")) (JStr "cachorro")
            _ _ _ _ _ _ _); try reflexivity.
  vm_compute. discriminate.
Defined.

Lemma search_cache_frame_witness :
  let P := ascii_platform in
  let cfg := config 3600000 500 (Some "k") in
  let w := world 1000 1001 (Resolved 200 (translation_body (JStr "cachorro")))
             (Resolved 200 (JArr [])) in
  let c := [("gato", {| translated := JStr "gato pt"; expiresAt := 5000 |})] in
  let c' := (search cfg w {[ "keywords" := JStr "perro" ]} c).1.2 in
  map_get "gato" c' = map_get "gato" c \/ map_get "gato" c' = None.
Proof.
  intros P cfg w c c'.
  refine (search_cache_frame cfg w {[ "keywords" := JStr "perro" ]} c "gato" _).
  vm_compute. discriminate.
Defined.

Lemma source_header_trimmed_witness :
  let P := ascii_platform in
  let cfg := config 3600000 500 None in
  let w := world 1000 1001 Rejected (Resolved 200 (JArr [])) in
  exists raw,
    ({[ "keywords" := JStr " gato " ]} : gmap string JSValue) !! "keywords" = Some (JStr raw) /\
    trim raw <> "" /\ JStr "gato" = JStr (trim raw) /\ header_ok (JStr "gato") = true.
Proof.
  intros P cfg w.
  refine (source_header_trimmed cfg w {[ "keywords" := JStr " gato " ]} [] (JStr "gato") _).
  vm_compute. do 2 apply list_elem_of_further. apply list_elem_of_here.
Defined.

Lemma fallback_on_failure_witness :
  let P := ascii_platform in
  let cfg := config 3600000 500 (Some "k") in
  let w := world 1000 1001 Rejected (Resolved 200 (JArr [])) in
  resolve cfg w "gato" [] =
  ({| portugueseKeywords := JStr "gato"; attempted := true; cacheHit := false;
      raised := false |},
   [], [TranslateCall "gato" "pt" "k"]).
Proof.
  intros P cfg w.
  refine (proj1 (proj2 (fallback_on_failure cfg w "gato" [] _) "k" _ _)); reflexivity.
Defined.

(** ** Allowed origins *)

Section origins.
Context `{Platform}.
Implicit Types (o s rest : string) (os : list string).

Lemma split_comma_comma_free o : comma_free o = true -> split_comma o = [o].
Proof.
  induction o as [|a o IH]; simpl; [done|].
  intros [Ha Ho]%andb_true_iff. apply negb_true_iff in Ha. rewrite Ha.
  by rewrite IH.
Qed.

Lemma split_comma_app o rest :
  comma_free o = true ->
  split_comma (o ++ String "," rest) = o :: split_comma rest.
Proof.
  induction o as [|a o IH]; [done|]. simpl.
  intros [Ha Ho]%andb_true_iff. apply negb_true_iff in Ha.
  change (String a o ++ String "," rest)%string with (String a (o ++ String "," rest)).
  simpl. rewrite Ha. by rewrite IH.
Qed.

Lemma split_comma_concat os :
  os <> [] -> Forall (λ o, comma_free o = true) os ->
  split_comma (String.concat "," os) = os.
Proof.
  intros Hne Hall. induction Hall as [|o os Ho Hall IH]; [done|].
  destruct os as [|o' os]; simpl; [by apply split_comma_comma_free|].
  change (o ++ "," ++ _)%string with (o ++ String "," (String.concat "," (o' :: os)))%string.
  rewrite split_comma_app by done. by rewrite IH.
Qed.

Lemma concat_not_empty o os : o <> "" -> String.concat "," (o :: os) <> "".
Proof. destruct o; [done|]. intros _. by destruct os. Qed.

Lemma blank_pieces_allow_nothing (pieces : list string) :
  Forall (λ piece, trim piece = "") pieces ->
  filter (λ o, o <> "") (trim <$> pieces) = [].
Proof.
  induction 1 as [|piece pieces Hb _ IH]; [done|].
  rewrite fmap_cons, Hb. by rewrite filter_cons_False by (intros ?; done).
Qed.


(** X17: a list of origins written with commas between them is read back as
    it is: the allowed origins are exactly the ones listed, provided they hold
    no comma, are not empty and are left as they are by [trim]. *)
Theorem allowed_origins_roundtrip (os : list string) :
  os <> [] ->
  Forall (λ o, comma_free o = true /\ o <> "" /\ trim o = o) os ->
  ALLOWED_ORIGINS (Some (String.concat "," os)) = os.
Proof.
  intros Hne Hall. unfold ALLOWED_ORIGINS.
  assert (env_or (Some (String.concat "," os)) "*" = String.concat "," os) as ->.
  { destruct os as [|o os]; [done|]. apply Forall_cons in Hall as [(_ & Ho & _) _].
    pose proof (concat_not_empty o os Ho) as Hc. unfold env_or.
    by destruct (String.eqb_spec (String.concat "," (o :: os)) ""). }
  rewrite split_comma_concat; [|done|by eapply Forall_impl; [done|]; intros ? (? & _)].
  clear Hne. induction Hall as [|o os (_ & Ho & Ht) Hall IH]; [done|].
  rewrite fmap_cons, Ht, filter_cons_True by done. by rewrite IH.
Qed.

(** X18: a request without an [Origin] header is always let through.  With
    the variable unset or empty every origin is let through, given that
    [trim] leaves ["*"] as it is.  With a variable of which [trim] leaves no
    piece, no origin is.  In general, unless ["*"] is listed, an origin is
    let through exactly when it is one of the allowed ones, compared as it
    is. *)
Theorem origin_allowed_cases (raw : option string) (origin : option string) :
  origin_allowed (ALLOWED_ORIGINS raw) None = true /\
  (trim "*" = "*" -> raw = None \/ raw = Some "" ->
   origin_allowed (ALLOWED_ORIGINS raw) origin = true) /\
  (Forall (λ piece, trim piece = "") (split_comma (env_or raw "*")) ->
   forall o, o <> "" -> origin_allowed (ALLOWED_ORIGINS raw) (Some o) = false) /\
  (forall o, "*" ∉ ALLOWED_ORIGINS raw -> o <> "" ->
     origin_allowed (ALLOWED_ORIGINS raw) (Some o) = true <-> o ∈ ALLOWED_ORIGINS raw).
Proof.
  split; [done|]. split; [|split].
  - intros Hstar Hraw.
    assert (ALLOWED_ORIGINS raw = ["*"]) as ->.
    { unfold ALLOWED_ORIGINS. destruct Hraw as [-> | ->]; simpl; by rewrite Hstar. }
    destruct origin as [o|]; [|done]. simpl. by rewrite orb_true_r.
  - intros Hblank o Ho. unfold ALLOWED_ORIGINS.
    rewrite (blank_pieces_allow_nothing _ Hblank). by destruct o.
  - intros o Hstar Ho. simpl.
    rewrite (bool_decide_eq_false_2 _ Hstar), orb_false_r.
    destruct o; [done|]. simpl. by rewrite bool_decide_eq_true.
Qed.
End origins.

Lemma allowed_origins_roundtrip_witness :
  let P := ascii_platform in
  ALLOWED_ORIGINS (Some "https://a.example,https://b.example") =
  ["https://a.example"; "https://b.example"].
Proof.
  intros P.
  refine (allowed_origins_roundtrip ["https://a.example"; "https://b.example"] _ _).
  - done.
  - repeat constructor; done.
Defined.

(** ** [GET /translate-pt] *)

(** X19: every reply of [/translate-pt] is one of three.  The 400 "Text
    parameter is required.", without a call to the client, when the text is
    absent or falsy.  The fixed 500, after one call, when the client rejects,
    when what it resolves to is not iterable, or when building the log line
    raises on the text or on the translation.  A 200 that echoes the text as
    it was given, with the first element of what the client resolved to (the
    first element of that when it is an array), after one call with the
    target [pt]. *)
Theorem translate_pt_replies `{Platform} (client : JSValue -> string -> ClientResult)
    (query : gmap string JSValue) :
  translate_pt client query = (text_required, []) /\
    (query !! "text" = None \/
     exists text, query !! "text" = Some text /\ truthy text = false) \/
  exists text,
    query !! "text" = Some text /\ truthy text = true /\
    (translate_pt client query).2 = [(text, "pt")] /\
    ((translate_pt client query).1 = internal_error /\
       (client text "pt" = ClientRejected \/
        exists value,
          client text "pt" = ClientResolved value /\
          (first_of value = None \/
           exists translations,
             first_of value = Some translations /\
             stringifies text && stringifies (first_if_array translations) = false)) \/
     exists value translations,
       client text "pt" = ClientResolved value /\
       first_of value = Some translations /\
       stringifies text && stringifies (first_if_array translations) = true /\
       (translate_pt client query).1 =
       {| res_status := 200; res_headers := [];
          res_body := JObj [("originalText", text);
                            ("translatedText", first_if_array translations)] |}).
Proof.
  unfold translate_pt. destruct (query !! "text") as [text|]; [|left; by eauto].
  destruct (truthy text) eqn:Ht; simpl; [|left; by eauto].
  right. exists text. split; [done|]. split; [done|]. split; [done|].
  destruct (client text "pt") as [|value]; [left; by eauto|].
  destruct (first_of value) as [translations|] eqn:Hf; [|left; by eauto 6].
  destruct (stringifies text && stringifies (first_if_array translations)) eqn:Hs.
  - right. exists value, translations. by rewrite Hs.
  - left. split; [done|]. right. exists value. split; [done|]. right. by exists translations.
Qed.

(** X19 on a text with spaces around it: the text is echoed untrimmed. *)
Lemma translate_pt_replies_witness :
  let P := ascii_platform in
  translate_pt (fun _ _ => ClientResolved (JArr [JStr "cachorro"; JObj []]))
    {[ "text" := JStr " perro " ]} =
  ({| res_status := 200; res_headers := [];
      res_body := JObj [("originalText", JStr " perro ");
                        ("translatedText", JStr "cachorro")] |},
   [(JStr " perro ", "pt")]).
Proof.
  intros P.
  destruct (translate_pt_replies (fun _ _ => ClientResolved (JArr [JStr "cachorro"; JObj []]))
              {[ "text" := JStr " perro " ]})
    as [[_ [Hno | (text & Hq & Hfalsy)]] | _]; [discriminate Hno | | reflexivity].
  injection Hq as <-. discriminate Hfalsy.
Defined.

(** ** The handler before the cache *)

(** X20: on a request that misses the cache, the handler with the cache makes
    the calls the earlier handler made, provided a key is configured or
    [trim] leaves the keywords as they are (without a key the earlier handler
    forwarded the keywords untrimmed).  The two reply with the same status
    and body when [res.set] accepts the trimmed keywords and the resolved
    text, the headers being set by the later handler only. *)
Theorem search_old_agrees `{Platform} (cfg : Config) (w : World)
    (query : gmap string JSValue) (c : Cache) :
  (forall raw, query !! "keywords" = Some (JStr raw) -> trim raw <> "" ->
     truthy (cacheGet (now_get w) (trim raw) c).1 = false /\
     (api_key cfg = None -> trim raw = raw)) ->
  (search cfg w query c).2 = (search_old cfg w query).2 /\
  ((forall raw, query !! "keywords" = Some (JStr raw) -> trim raw <> "" ->
      header_ok (JStr (trim raw)) = true /\
      header_ok (portugueseKeywords (resolve cfg w (trim raw) c).1.1) = true) ->
   res_status (search cfg w query c).1.1 = res_status (search_old cfg w query).1 /\
   res_body (search cfg w query c).1.1 = res_body (search_old cfg w query).1).
Proof.
  intros Hmiss. unfold search_old.
  destruct (hasKeywords (query !! "keywords")) eqn:Hhas; simpl.
  - destruct (hasKeywords_true query Hhas) as (raw & Hq & Hraw).
    destruct (Hmiss raw Hq Hraw) as [Hm Htrim].
    rewrite (search_reply_usable cfg w query c raw Hq Hraw).
    rewrite (search_with_keywords cfg w query c raw Hq Hraw). cbv zeta.
    rewrite Hq. simpl string_of.
    destruct (api_key cfg) as [key|] eqn:Hkey.
    + destruct (translate_post w (trim raw) "pt" key) as [|status body] eqn:Hpost.
      * rewrite (resolve_throws cfg w _ c key Hm Hkey) by (by rewrite Hpost).
        simpl. split; [done|]. intros Hok. destruct (Hok raw eq_refl Hraw) as [Hs _].
        rewrite Hs.
        by destruct (search_get _ _ _).
      * destruct (translatedText_of body) as [text|] eqn:Htext.
        -- rewrite (resolve_translated cfg w _ c _ _ _ _ Hm Hkey Hpost Htext).
           simpl. split; [done|]. intros Hok. destruct (Hok raw eq_refl Hraw) as [Hs Hp].
           rewrite (resolve_translated cfg w _ c _ _ _ _ Hm Hkey Hpost Htext) in Hp.
           simpl in Hp. rewrite Hs, Hp.
           by destruct (search_get _ _ _).
        -- rewrite (resolve_throws cfg w _ c key Hm Hkey)
             by (rewrite Hpost; simpl; by rewrite Htext).
           simpl. split; [done|]. intros Hok. destruct (Hok raw eq_refl Hraw) as [Hs _].
        rewrite Hs.
           by destruct (search_get _ _ _).
    + rewrite (resolve_no_key cfg w _ c Hm Hkey). simpl.
      rewrite (Htrim eq_refl), (insert_id query "keywords" (JStr raw) Hq).
      split; [done|]. intros Hok. destruct (Hok raw eq_refl Hraw) as [Hsrc _].
      rewrite (Htrim eq_refl) in Hsrc. rewrite Hsrc.
      by destruct (search_get _ _ _).
  - rewrite (search_reply_plain cfg w query c Hhas).
    rewrite (search_without_keywords cfg w query c Hhas). simpl.
    split; [done|]. intros _. by destruct (search_get _ _ _).
Qed.

Lemma search_old_agrees_witness :
  let P := ascii_platform in
  let cfg := config 3600000 500 (Some "k") in
  let w := world 1000 1001 (Resolved 200 (translation_body (JStr "cachorro")))
             (Resolved 200 (JArr [])) in
  (search cfg w {[ "keywords" := JStr " perro " ]} []).2 =
  (search_old cfg w {[ "keywords" := JStr " perro " ]}).2.
Proof.
  intros P cfg w.
  refine (proj1 (search_old_agrees cfg w {[ "keywords" := JStr " perro " ]} [] _)).
  intros raw Hq _. injection Hq as <-. split; [reflexivity|]. discriminate.
Defined.
